(** * Cloud session and device control client of homebridge-smart-diffuser-lbslm

    A shallow embedding of [src/auth.js] (AuthClient), [src/platform.js]
    (DiffuserPlatform: the session refresh and the device registration) and
    [src/accessory.js] (DiffuserAccessory), and the properties of the cloud
    session and device control client that are proved about them.

    Conventions of the embedding:
    - JavaScript values are the inductive type [JS.value]; numbers are exact
      rationals plus [NaN] (binary floating point is not modelled);
    - an [async] function is a state transformer returning a [settle]:
      [Resolved], [Rejected] or [Pending] (the promise never settles because
      the environment never answers);
    - the environment (HTTP replies, the platform's refreshSession, the
      clock) is a script carried in the state; everything the code sends
      out (requests, refresh calls, timers, characteristic updates) is
      recorded in a trace;
    - template literals are kept as the list of their parts, so no
      number-to-string conversion is needed;
    - calls to [this.log] have no effect on the state and are left out. *)

From Stdlib Require Import ZArith QArith Qround String Ascii List Bool Lia.
From Stdlib Require Import DecimalString.
Import ListNotations.

Set Warnings "-register-all".

Local Open Scope string_scope.
Local Open Scope Z_scope.

(** ** JavaScript values and the primitives the sources use *)

Module JS.

Inductive number :=
| NaN
| Num (q : Q).

Inductive value :=
| Undefined
| Null
| Bool (b : bool)
| Number (n : number)
| Str (s : string)
| Arr (items : list value)
| Obj (fields : list (string * value)).

(** An integer literal such as [0], [100] or [90]. *)
Definition Int (z : Z) : value := Number (Num (inject_Z z)).

(** ToBoolean. *)
Definition truthy (v : value) : bool :=
  match v with
  | Undefined | Null => false
  | Bool b => b
  | Number NaN => false
  | Number (Num q) => negb (Qeq_bool q 0)
  | Str s => negb (String.eqb s EmptyString)
  | Arr _ | Obj _ => true
  end.

(** [a || b]. *)
Definition or_else (a b : value) : value := if truthy a then a else b.

(** [v === 'literal']. *)
Definition is_string (v : value) (lit : string) : bool :=
  match v with
  | Str s => String.eqb s lit
  | _ => false
  end.

(** [v === true]. *)
Definition is_true (v : value) : bool :=
  match v with
  | Bool true => true
  | _ => false
  end.

(** Own property [k] of an object literal, if it has one. *)
Fixpoint own {V : Type} (k : string) (fields : list (string * V)) : option V :=
  match fields with
  | [] => None
  | (k', v) :: rest => if String.eqb k k' then Some v else own k rest
  end.

(** The value of [o.k] for an object literal: [undefined] when absent. *)
Definition lookup (k : string) (fields : list (string * value)) : value :=
  match own k fields with
  | Some v => v
  | None => Undefined
  end.

Definition has_key {V : Type} (k : string) (fields : list (string * V))
  : bool :=
  match own k fields with
  | Some _ => true
  | None => false
  end.

(** [v.k] for an identifier [k]; [None] is the TypeError thrown on [null]
    and [undefined].  The sources only read identifier-named properties this
    way; element access is [index]. *)
Definition prop (v : value) (k : string) : option value :=
  match v with
  | Undefined | Null => None
  | Obj fields => Some (lookup k fields)
  | Arr items =>
      Some (if String.eqb k "length"
            then Int (Z.of_nat (List.length items)) else Undefined)
  | Str s =>
      Some (if String.eqb k "length"
            then Int (Z.of_nat (String.length s)) else Undefined)
  | Bool _ | Number _ => Some Undefined
  end.

(** [v[i]]. *)
Definition index (v : value) (i : nat) : option value :=
  match v with
  | Undefined | Null => None
  | Arr items => Some (nth i items Undefined)
  | Str s =>
      Some (match String.get i s with
            | Some c => Str (String c EmptyString)
            | None => Undefined
            end)
  | Obj fields => Some (lookup (NilEmpty.string_of_uint (Nat.to_uint i)) fields)
  | Bool _ | Number _ => Some Undefined
  end.

(** Writing a property of an object literal: an existing key keeps its
    position and takes the new value, a new key is appended. *)
Fixpoint assign {V : Type} (k : string) (v : V) (fields : list (string * V))
  : list (string * V) :=
  match fields with
  | [] => [(k, v)]
  | (k', v') :: rest =>
      if String.eqb k k' then (k, v) :: rest else (k', v') :: assign k v rest
  end.

(** [{ ...base, ...params }]: the own properties of [params] are written
    onto [base] in order. *)
Definition spread (base params : list (string * value))
  : list (string * value) :=
  fold_left (fun acc kv => assign (fst kv) (snd kv) acc) params base.

(** [s.startsWith(p)]. *)
Definition startsWith (s p : string) : bool := String.prefix p s.

(** [s.includes(p)]. *)
Fixpoint includes (s p : string) : bool :=
  if String.prefix p s then true
  else match s with
       | EmptyString => false
       | String _ rest => includes rest p
       end.

(** Math.round rounds to the nearest integer, halves upwards. *)
Definition round (q : Q) : Z := Qfloor (q + (1 # 2)).

Definition Math_round (n : number) : number :=
  match n with
  | NaN => NaN
  | Num q => Num (inject_Z (round q))
  end.

Definition Math_min (a b : number) : number :=
  match a, b with
  | Num x, Num y => Num (if Qle_bool x y then x else y)
  | _, _ => NaN
  end.

Definition Math_max (a b : number) : number :=
  match a, b with
  | Num x, Num y => Num (if Qle_bool x y then y else x)
  | _, _ => NaN
  end.

(** [n / d] for a non-zero literal divisor. *)
Definition div (n : number) (d : Q) : number :=
  match n with
  | NaN => NaN
  | Num q => Num (q / d)
  end.

(** A template literal before rendering: literal text, interpolated values
    and [JSON.stringify] calls. *)
Inductive part :=
| Lit (s : string)
| Val (v : value)
| Stringify (v : value).

Definition template := list part.

Section ToNumber.

(** ToNumber on strings, arrays and objects goes through the ECMAScript
    string-to-number grammar and ToPrimitive, which are not part of this
    repository; it is taken as given. *)
Variable ToNumber_ext : value -> number.

Definition ToNumber (v : value) : number :=
  match v with
  | Undefined => NaN
  | Null => Num 0
  | Bool b => Num (if b then 1 else 0)
  | Number n => n
  | Str _ | Arr _ | Obj _ => ToNumber_ext v
  end.

End ToNumber.

End JS.

(** ** Errors and promise outcomes *)

(** [HAPStatus] codes the accessory raises. *)
Inductive hap_status :=
| SERVICE_COMMUNICATION_FAILURE.

(** Error objects: [new Error(message)], the TypeError of reading a property
    of [null] or [undefined], the SyntaxError of [JSON.parse], and
    [new HapStatusError(status)]. *)
Inductive error :=
| Error (message : JS.template)
| TypeError (reading : string)
| SyntaxError
| HapStatusError (status : hap_status).

(** How a promise ends: it never settles, it is fulfilled, or it is
    rejected. *)
Inductive settle (A : Type) :=
| Pending
| Resolved (a : A)
| Rejected (e : error).

Arguments Pending {A}.
Arguments Resolved {A} a.
Arguments Rejected {A} e.

(** ** The Auth Service: [AuthClient.login] (src/auth.js) *)

Module Auth.

(** What the login handler reads of the HTTP response: the status code, the
    [set-cookie] header (an array when present) and the complete body. *)
Record response := {
  statusCode : Z;
  set_cookie : option (list string);
  data : string
}.

(** What [http.request] delivers: a response, an ['error'] event, or
    nothing. *)
Inductive reply :=
| Response (res : response)
| SocketError (e : error)
| NoReply.

Record request := {
  hostname : string;
  port : Z;
  path : string;
  method : string;
  form : list (string * string)
}.

(** The request [login] writes: a form-encoded POST to /admin/login.do. *)
Definition login_request (host username password : string) : request :=
  {| hostname := host;
     port := 80;
     path := "/admin/login.do";
     method := "POST";
     form := [("platform", "1"); ("areaCode", "0");
              ("username", username); ("password", password)] |}.

(** The marker of an authentication failure that [login] looks for. *)
Definition MARKER : string := "AuthenticationException".

(** The body contains the marker. *)
Definition marked (body : string) : Prop :=
  exists before after, body = before ++ MARKER ++ after.

(** The response callback of [login]; the fulfilment value is the cookie
    array, or [None] for [null]. *)
Definition login_response (res : response) : settle (option (list string)) :=
  if (200 <=? statusCode res) && (statusCode res <? 400) then
    match set_cookie res with
    | Some cookies => Resolved (Some cookies)
    | None =>
        if JS.includes (data res) MARKER
        then Rejected (Error [JS.Lit "Invalid Credentials"])
        else Resolved None
    end
  else
    Rejected (Error [JS.Lit "HTTP "; JS.Val (JS.Int (statusCode res))]).

(** [login(username, password)] against a server that answers [net]. *)
Definition login (host username password : string) (net : reply)
  : request * settle (option (list string)) :=
  (login_request host username password,
   match net with
   | Response res => login_response res
   | SocketError e => Rejected e
   | NoReply => Pending
   end).

(** *** Cookie fields, the device list and [getCredentials] *)

(** [s.split(sep)] for a non-empty separator: [piece] is the piece being
    read and [skip] counts the characters of a matched separator still to
    pass over. *)
Fixpoint split_from (sep : string) (skip : nat) (piece : string) (s : string)
  : list string :=
  match s with
  | EmptyString => [piece]
  | String c rest =>
      match skip with
      | S k => split_from sep k piece rest
      | O =>
          if String.prefix sep s
          then piece :: split_from sep (String.length sep - 1) EmptyString rest
          else split_from sep 0 (piece ++ String c EmptyString) rest
      end
  end.

Definition split (s sep : string) : list string :=
  split_from sep 0 EmptyString s.

(** [c.split(key)[1].split(';')[0]]: [None] is the TypeError of splitting
    [undefined]. *)
Definition field_after (key c : string) : option JS.value :=
  match nth_error (split c key) 1 with
  | Some after =>
      Some (match nth_error (split after ";") 0 with
            | Some v => JS.Str v
            | None => JS.Undefined
            end)
  | None => None
  end.

(** The loop shared by the three extractors: the first cookie that contains
    [key] decides, and [null] is returned when none does. *)
Fixpoint extract (key : string) (cookies : list string)
  : error + JS.value :=
  match cookies with
  | [] => inr JS.Null
  | c :: rest =>
      if JS.includes c key then
        match field_after key c with
        | Some v => inr v
        | None => inl (TypeError "split")
        end
      else extract key rest
  end.

Definition extractUid : list string -> error + JS.value := extract "uid=".

Definition extractToken : list string -> error + JS.value := extract "token=".

Definition extractSessionId : list string -> error + JS.value :=
  extract "sessionId=".

(** What the [fetchDevices] handler reads of the HTTP response: the body and
    [JSON.parse] of it ([None] when it throws).  The status code is there
    but the handler does not look at it. *)
Record listing := {
  listing_statusCode : Z;
  listing_data : string;
  listing_json : option JS.value
}.

Inductive listing_reply :=
| Listing (res : listing)
| ListingError (e : error)
| NoListing.

Record listing_request := {
  listing_hostname : string;
  listing_port : Z;
  listing_path : string;
  listing_query : list (string * JS.value);
  listing_method : string;
  listing_headers : list (string * string)
}.

Definition USER_AGENT : string :=
  "Mozilla/5.0 (Macintosh; Intel Mac OS X 10_15_7) AppleWebKit/537.36 (KHTML, like Gecko) Chrome/120.0.0.0 Safari/537.36".

(** [cookieStr]: the first [;]-separated piece of every cookie, joined by
    ["; "]. *)
Definition cookieStr (cookies : list string) : string :=
  String.concat "; "
    (map (fun c => match nth_error (split c ";") 0 with
                   | Some nv => nv
                   | None => EmptyString
                   end) cookies).

(** The request [fetchDevices(cookies, uid)] sends; [listing_path] and
    [listing_query] are the two parts of the path. *)
Definition fetchDevices_request (host : string) (cookies : list string)
    (uid : JS.value) : listing_request :=
  {| listing_hostname := host;
     listing_port := 80;
     listing_path := "/admin/amos/searchForWeb.do";
     listing_query := [("online", JS.Int 2); ("uid", uid); ("draw", JS.Int 1);
                       ("start", JS.Int 0); ("length", JS.Int 10)];
     listing_method := "POST";
     listing_headers := [("User-Agent", USER_AGENT);
                         ("X-Requested-With", "XMLHttpRequest");
                         ("Cookie", cookieStr cookies)] |}.

(** The ['end'] handler of [fetchDevices]. *)
Definition fetchDevices_response (res : listing) : settle JS.value :=
  match listing_json res with
  | None => Rejected (Error [JS.Lit "Failed to parse device list JSON"])
  | Some json =>
      if JS.truthy json then
        match JS.prop json "data" with
        | Some data =>
            if JS.truthy data then Resolved data else Resolved (JS.Arr [])
        | None => Rejected (Error [JS.Lit "Failed to parse device list JSON"])
        end
      else Resolved (JS.Arr [])
  end.

Definition fetchDevices (host : string) (cookies : list string)
    (uid : JS.value) (net : listing_reply)
  : listing_request * settle JS.value :=
  (fetchDevices_request host cookies uid,
   match net with
   | Listing res => fetchDevices_response res
   | ListingError e => Rejected e
   | NoListing => Pending
   end).

(** [devices.length === 0]. *)
Definition is_zero (v : JS.value) : bool :=
  match v with
  | JS.Number (JS.Num q) => Qeq_bool q 0
  | _ => false
  end.

(** The part of [getCredentials] that follows [await this.fetchDevices]:
    what is returned for the device list [devices]. *)
Definition credentials_of (cookies : list string) (uid devices : JS.value)
  : settle JS.value :=
  let no_devices :=
    if negb (JS.truthy devices) then Some true
    else match JS.prop devices "length" with
         | Some len => Some (is_zero len)
         | None => None
         end in
  match no_devices with
  | None => Rejected (TypeError "length")
  | Some true => Resolved JS.Null
  | Some false =>
      match JS.index devices 0, extractToken cookies,
            extractSessionId cookies with
      | Some primaryDevice, inr token, inr sessionId =>
          match JS.prop primaryDevice "nid" with
          | Some nid =>
              Resolved (JS.Obj [("nid", nid); ("token", token); ("uid", uid);
                                ("sessionId", sessionId);
                                ("devices", devices)])
          | None => Rejected (TypeError "nid")
          end
      | None, _, _ => Rejected (TypeError "0")
      | _, inl e, _ => Rejected e
      | _, _, inl e => Rejected e
      end
  end.

(** [getCredentials(username, password)] against a server that answers the
    login with [net] and the device listing, if it is asked for, with
    [net']: the requests sent and how the promise settles.  The [catch]
    block logs and rethrows. *)
Definition getCredentials (host username password : string)
    (net : reply) (net' : listing_reply)
  : request * option listing_request * settle JS.value :=
  let (rq, logged_in) := login host username password net in
  match logged_in with
  | Pending => (rq, None, Pending)
  | Rejected e => (rq, None, Rejected e)
  | Resolved None =>
      (rq, None, Rejected (Error [JS.Lit "Login failed: No cookies received"]))
  | Resolved (Some cookies) =>
      match extractUid cookies with
      | inl e => (rq, None, Rejected e)
      | inr uid =>
          if negb (JS.truthy uid) then
            (rq, None,
             Rejected (Error
               [JS.Lit "Login success but UID not found in cookies"]))
          else
            let (rq', listed) := fetchDevices host cookies uid net' in
            (rq, Some rq',
             match listed with
             | Pending => Pending
             | Rejected e => Rejected e
             | Resolved devices => credentials_of cookies uid devices
             end)
      end
  end.

(** *** Vocabulary of the statements *)

(** The login is answered with a 2xx or 3xx status and the cookies
    [cookies]. *)
Definition logged_in (net : reply) (cookies : list string) : Prop :=
  exists res,
    net = Response res /\
    200 <= statusCode res < 400 /\
    set_cookie res = Some cookies.

(** A cookie given as its name=value part and what follows it: the first
    part has no [;], and the rest is empty or starts with one. *)
Definition name_value_first (p : string * string) : Prop :=
  JS.includes (fst p) ";" = false /\
  (snd p = EmptyString \/ exists attrs, snd p = String ";" attrs).

(** The listing carries no device: the body parses to a falsy value, or its
    data field is absent, falsy, or an empty array. *)
Definition no_devices (res : listing) : Prop :=
  exists json,
    listing_json res = Some json /\
    (JS.truthy json = false \/
     exists data, JS.prop json "data" = Some data /\
                  (JS.truthy data = false \/ data = JS.Arr [])).

End Auth.

(** ** The Session Coordinator: [DiffuserPlatform.refreshSession]
       (src/platform.js) *)

Module Platform.

(** A promise made by [_executeRefresh().finally(...)]. *)
Inductive promise :=
| AwaitingCredentials
    (* suspended at [await auth.getCredentials(...)] *)
| Failing (e : error)
    (* [_executeRefresh] threw before awaiting; the [finally] callback has
       not run yet *)
| Done (r : settle JS.value).
    (* settled, and the [finally] callback has run *)

Record Platform := {
  email : JS.value;               (* this.config.email *)
  password : JS.value;            (* this.config.password *)
  _refreshPromise : option nat;   (* a promise of the store, or null *)
  promises : list promise;        (* every promise made so far *)
  logins : nat                    (* calls of auth.getCredentials so far *)
}.

(** The synchronous part of [_executeRefresh]: it throws without
    credentials, and otherwise calls [auth.getCredentials] and suspends. *)
Definition _executeRefresh_start (p : Platform) : promise * nat :=
  if negb (JS.truthy (email p)) || negb (JS.truthy (password p)) then
    (Failing (Error
       [JS.Lit "Cannot refresh session: No Email/Password configured."]),
     logins p)
  else (AwaitingCredentials, S (logins p)).

(** The rest of [_executeRefresh], once [auth.getCredentials] has settled
    with [creds]. *)
Definition _executeRefresh_resume (creds : settle JS.value) : settle JS.value :=
  match creds with
  | Pending => Pending
  | Rejected e => Rejected e
  | Resolved c =>
      match JS.prop c "token", JS.prop c "uid", JS.prop c "sessionId" with
      | Some t, Some u, Some s =>
          Resolved (JS.Obj [("token", t); ("uid", u); ("sessionId", s)])
      | None, _, _ => Rejected (TypeError "token")
      | _, None, _ => Rejected (TypeError "uid")
      | _, _, None => Rejected (TypeError "sessionId")
      end
  end.

(** [refreshSession()]: runs to completion without yielding, and returns the
    promise the caller awaits. *)
Definition refreshSession (p : Platform) : nat * Platform :=
  match _refreshPromise p with
  | Some h => (h, p)
  | None =>
      let (pr, n) := _executeRefresh_start p in
      let h := List.length (promises p) in
      (h, {| email := email p;
             password := password p;
             _refreshPromise := Some h;
             promises := promises p ++ [pr];
             logins := n |})
  end.

Fixpoint settle_at (h : nat) (r : settle JS.value) (ps : list promise)
  : list promise :=
  match ps, h with
  | [], _ => []
  | _ :: rest, O => Done r :: rest
  | pr :: rest, S h' => pr :: settle_at h' r rest
  end.

(** How promise [pr] settles once [auth.getCredentials] has settled with
    [creds]: a refresh that threw before awaiting rejects with what it
    threw. *)
Definition outcome_of (pr : promise) (creds : settle JS.value)
  : settle JS.value :=
  match pr with
  | AwaitingCredentials => _executeRefresh_resume creds
  | Failing e => Rejected e
  | Done r => r
  end.

(** The in-flight refresh completes: the promise settles and the [finally]
    callback clears [_refreshPromise]. *)
Definition complete (creds : settle JS.value) (p : Platform) : Platform :=
  match _refreshPromise p with
  | None => p
  | Some h =>
      match nth_error (promises p) h with
      | Some (Done _) | None => p
      | Some pr =>
          match outcome_of pr creds with
          | Pending => p
          | r => {| email := email p;
                    password := password p;
                    _refreshPromise := None;
                    promises := settle_at h r (promises p);
                    logins := logins p |}
          end
      end
  end.

(** What a caller that awaits promise [h] receives. *)
Definition await (h : nat) (p : Platform) : settle JS.value :=
  match nth_error (promises p) h with
  | Some (Done r) => r
  | _ => Pending
  end.

(** [this.config.email] and [this.config.password] are both set. *)
Definition configured (p : Platform) : bool :=
  JS.truthy (email p) && JS.truthy (password p).

(** Promise [h] is the refresh in flight: [_refreshPromise] holds it and it
    has not settled. *)
Definition in_flight (p : Platform) (h : nat) (pr : promise) : Prop :=
  _refreshPromise p = Some h /\
  nth_error (promises p) h = Some pr /\
  forall r, pr <> Done r.

(** [_refreshPromise], when set, holds an unsettled promise. *)
Definition consistent (p : Platform) : Prop :=
  forall h, _refreshPromise p = Some h -> exists pr, in_flight p h pr.

(** *** Runs of the Session Coordinator *)

(** What happens to a platform: a caller calls [refreshSession()], or the
    login of the refresh in flight settles with [creds]. *)
Inductive event :=
| Call
| Settle (creds : settle JS.value).

Definition step (p : Platform) (e : event) : Platform :=
  match e with
  | Call => snd (refreshSession p)
  | Settle creds => complete creds p
  end.

Definition run (events : list event) (p : Platform) : Platform :=
  fold_left step events p.

(** The platform as its constructor leaves it. *)
Definition fresh (email password : JS.value) : Platform :=
  {| email := email; password := password; _refreshPromise := None;
     promises := []; logins := 0 |}.

Definition settled (pr : promise) : bool :=
  match pr with
  | Done _ => true
  | _ => false
  end.

Fixpoint settles (events : list event) : nat :=
  match events with
  | [] => 0
  | Call :: rest => settles rest
  | Settle _ :: rest => S (settles rest)
  end.

(** Every promise but the one in flight has settled, the one in flight is
    the last one made, and no more logins were started than promises made;
    [n] bounds the promises that have settled. *)
Definition orderly (p : Platform) (n : nat) : Prop :=
  (logins p <= List.length (promises p))%nat /\
  match _refreshPromise p with
  | None =>
      forallb settled (promises p) = true /\
      (List.length (promises p) <= n)%nat
  | Some h =>
      exists before pr,
        promises p = (before ++ [pr])%list /\
        h = List.length before /\
        settled pr = false /\
        forallb settled before = true /\
        (List.length before <= n)%nat
  end.

(** The error of a refresh without configured credentials. *)
Definition NOT_CONFIGURED : error :=
  Error [JS.Lit "Cannot refresh session: No Email/Password configured."].

End Platform.

(** ** The Device API Caller and the Device State Poller:
       [DiffuserAccessory] (src/accessory.js) *)

Module Accessory.

Import JS.

(** The request options handed to [http.request].  [path] is kept as its two
    parts, the resource path and the entries of the [URLSearchParams] (before
    they are rendered as text). *)
Module Http.

Record request := {
  hostname : string;
  port : Z;
  resourcePath : string;
  query : list (string * value);
  method : string;
  headers : list (string * template)
}.

End Http.

(** What the response handler reads of the HTTP response: the status code,
    the complete body, and [JSON.parse] of the body ([None] when it throws). *)
Record response := {
  statusCode : Z;
  data : string;
  json : option value
}.

(** What [http.request] delivers: a response, an ['error'] event, or
    nothing. *)
Inductive reply :=
| Response (res : response)
| SocketError (e : error)
| NoReply.

Inductive characteristic :=
| On
| RotationSpeed
| LockPhysicalControls
| FilterLifeLevel
| FilterChangeIndication.

Definition CONTROL_LOCK_DISABLED : value := Int 0.
Definition CONTROL_LOCK_ENABLED : value := Int 1.
Definition FILTER_OK : value := Int 0.
Definition CHANGE_FILTER : value := Int 1.

(** The callbacks the accessory hands to [setTimeout]. *)
Inductive task :=
| PollStatus
    (* () => this.pollStatus() *)
| UpdateLock (v : value).
    (* () => this.service.updateCharacteristic(LockPhysicalControls, v) *)

(** The fields of [this]. *)
Record Device := {
  nid : value;
  token : value;
  username : value;
  appid : value;
  uid : value;
  sessionId : value;
  isOn : value;
  hostname : string;
  basePath : string;
  headers : list (string * template);
  oilLevel : value;
  timerCache : value
}.

(** The environment: what each successive [http.request] delivers, how each
    successive [platform.refreshSession()] settles, and the readings of
    [Date.now()] (milliseconds). *)
Record World := {
  network : list reply;
  session : list (settle value);
  clock : nat -> Z;
  ticks : nat
}.

(** What the accessory has done to its surroundings, oldest first. *)
Record Trace := {
  exchanges : list (Http.request * reply);
  refreshes : nat;
  timers : list (task * Z);
  updates : list (characteristic * value)
}.

Record Sys := {
  this : Device;
  world : World;
  trace : Trace
}.

Definition with_this (f : Device -> Device) (s : Sys) : Sys :=
  {| this := f (this s); world := world s; trace := trace s |}.

Definition with_world (f : World -> World) (s : Sys) : Sys :=
  {| this := this s; world := f (world s); trace := trace s |}.

Definition with_trace (f : Trace -> Trace) (s : Sys) : Sys :=
  {| this := this s; world := world s; trace := f (trace s) |}.

(** *** The monad of asynchronous code *)

Definition M (A : Type) : Type := Sys -> settle A * Sys.

Definition ret {A} (a : A) : M A := fun s => (Resolved a, s).

Definition bind {A B} (m : M A) (k : A -> M B) : M B :=
  fun s =>
    match m s with
    | (Resolved a, s') => k a s'
    | (Rejected e, s') => (Rejected e, s')
    | (Pending, s') => (Pending, s')
    end.

Notation "x <- m ;; k" := (bind m (fun x => k))
  (at level 61, m at next level, right associativity).
Notation "m ;; k" := (bind m (fun _ => k))
  (at level 61, right associativity).

(** [throw e], and the rejection of an awaited promise. *)
Definition throw {A} (e : error) : M A := fun s => (Rejected e, s).

(** Awaiting a promise that never settles. *)
Definition pending {A} : M A := fun s => (Pending, s).

(** [try { m } catch (e) { h e }]. *)
Definition try_catch {A} (m : M A) (h : error -> M A) : M A :=
  fun s =>
    match m s with
    | (Rejected e, s') => h e s'
    | r => r
    end.

(** Running [m] to its end and keeping how it ended as a value. *)
Definition attempt {A} (m : M A) : M (settle A) :=
  fun s =>
    match m s with
    | (Pending, s') => (Pending, s')
    | (r, s') => (Resolved r, s')
    end.

(** [new Promise((resolve, reject) => ...)] whose callbacks decide how the
    promise settles; a callback that throws leaves it unsettled. *)
Definition promise {A} (decide : M (settle A)) : M A :=
  fun s =>
    match decide s with
    | (Resolved r, s') => (r, s')
    | (_, s') => (Pending, s')
    end.

(** A promise keeps its first settlement: later [resolve] and [reject]
    calls do nothing. *)
Definition first_settle {A} (first later : settle A) : settle A :=
  match first with
  | Pending => later
  | _ => first
  end.

(** [v.k], throwing the TypeError. *)
Definition read (v : value) (k : string) : M value :=
  match prop v k with
  | Some x => ret x
  | None => throw (TypeError k)
  end.

(** [v[i]], throwing the TypeError. *)
Definition elem (v : value) (i : nat) : M value :=
  match index v i with
  | Some x => ret x
  | None => throw (TypeError (NilEmpty.string_of_uint (Nat.to_uint i)))
  end.

Definition get_this : M Device := fun s => (Resolved (this s), s).

Definition set_token (v : value) : M unit :=
  fun s => (Resolved tt, with_this (fun d =>
    {| nid := nid d; token := v; username := username d; appid := appid d;
       uid := uid d; sessionId := sessionId d; isOn := isOn d;
       hostname := hostname d; basePath := basePath d; headers := headers d;
       oilLevel := oilLevel d; timerCache := timerCache d |}) s).

Definition set_uid (v : value) : M unit :=
  fun s => (Resolved tt, with_this (fun d =>
    {| nid := nid d; token := token d; username := username d;
       appid := appid d; uid := v; sessionId := sessionId d; isOn := isOn d;
       hostname := hostname d; basePath := basePath d; headers := headers d;
       oilLevel := oilLevel d; timerCache := timerCache d |}) s).

Definition set_sessionId (v : value) : M unit :=
  fun s => (Resolved tt, with_this (fun d =>
    {| nid := nid d; token := token d; username := username d;
       appid := appid d; uid := uid d; sessionId := v; isOn := isOn d;
       hostname := hostname d; basePath := basePath d; headers := headers d;
       oilLevel := oilLevel d; timerCache := timerCache d |}) s).

Definition set_isOn (v : value) : M unit :=
  fun s => (Resolved tt, with_this (fun d =>
    {| nid := nid d; token := token d; username := username d;
       appid := appid d; uid := uid d; sessionId := sessionId d; isOn := v;
       hostname := hostname d; basePath := basePath d; headers := headers d;
       oilLevel := oilLevel d; timerCache := timerCache d |}) s).

Definition set_oilLevel (v : value) : M unit :=
  fun s => (Resolved tt, with_this (fun d =>
    {| nid := nid d; token := token d; username := username d;
       appid := appid d; uid := uid d; sessionId := sessionId d;
       isOn := isOn d; hostname := hostname d; basePath := basePath d;
       headers := headers d; oilLevel := v; timerCache := timerCache d |}) s).

Definition set_timerCache (v : value) : M unit :=
  fun s => (Resolved tt, with_this (fun d =>
    {| nid := nid d; token := token d; username := username d;
       appid := appid d; uid := uid d; sessionId := sessionId d;
       isOn := isOn d; hostname := hostname d; basePath := basePath d;
       headers := headers d; oilLevel := oilLevel d; timerCache := v |}) s).

(** [Date.now()]. *)
Definition Date_now : M Z :=
  fun s =>
    (Resolved (clock (world s) (ticks (world s))),
     with_world (fun w =>
       {| network := network w; session := session w; clock := clock w;
          ticks := S (ticks w) |}) s).

(** [http.request(options, ...)] followed by [req.end()]: the request goes
    out and the network delivers its next reply. *)
Definition http_request (options : Http.request) : M reply :=
  fun s =>
    let r := match network (world s) with
             | r :: _ => r
             | [] => NoReply
             end in
    (Resolved r,
     with_trace (fun t =>
       {| exchanges := exchanges t ++ [(options, r)];
          refreshes := refreshes t; timers := timers t;
          updates := updates t |})
       (with_world (fun w =>
          {| network := tl (network w); session := session w;
             clock := clock w; ticks := ticks w |}) s)).

(** [await this.platform.refreshSession()]. *)
Definition platform_refreshSession : M value :=
  fun s =>
    let r := match session (world s) with
             | r :: _ => r
             | [] => Pending
             end in
    (r,
     with_trace (fun t =>
       {| exchanges := exchanges t; refreshes := S (refreshes t);
          timers := timers t; updates := updates t |})
       (with_world (fun w =>
          {| network := network w; session := tl (session w);
             clock := clock w; ticks := ticks w |}) s)).

(** [setTimeout(callback, ms)]. *)
Definition setTimeout (callback : task) (ms : Z) : M unit :=
  fun s =>
    (Resolved tt,
     with_trace (fun t =>
       {| exchanges := exchanges t; refreshes := refreshes t;
          timers := timers t ++ [(callback, ms)];
          updates := updates t |}) s).

(** [service.updateCharacteristic(c, v)], on the service that carries [c]. *)
Definition updateCharacteristic (c : characteristic) (v : value) : M unit :=
  fun s =>
    (Resolved tt,
     with_trace (fun t =>
       {| exchanges := exchanges t; refreshes := refreshes t;
          timers := timers t; updates := updates t ++ [(c, v)] |}) s).

(** *** The constructor *)

(** The [Cookie] template literal. *)
Definition cookie_of (appid uid token sessionId username : value) : template :=
  [Lit "appid="; Val appid; Lit ";uid="; Val uid;
   Lit ";token="; Val token; Lit ";SESSIONID="; Val sessionId;
   Lit ";username="; Val username].

(** The same, over the current fields of [this]. *)
Definition cookie (d : Device) : template :=
  cookie_of (appid d) (uid d) (token d) (sessionId d) (username d).

(** The fields the constructor sets from [config]; it then wires the HomeKit
    services, calls [pollStatus()] once and starts the 30 second interval. *)
Definition constructor (config : value) : option Device :=
  match prop config "nid", prop config "token", prop config "username",
        prop config "appid", prop config "uid", prop config "sessionId" with
  | Some n, Some t, Some un, Some a, Some u, Some sid =>
      let a' := or_else a (Str "19987617") in
      Some {| nid := n; token := t; username := un; appid := a';
              uid := u; sessionId := sid; isOn := Bool false;
              hostname := "amos.us.lbslm.com";
              basePath := "/amosFragrance";
              headers :=
                [("Host", [Lit "amos.us.lbslm.com"]);
                 ("Accept", [Lit "*/*"]);
                 ("User-Agent",
                  [Lit "UPerfume/2.1.5 (iPhone; iOS 26.3; Scale/3.00)"]);
                 ("Accept-Language", [Lit "en-US;q=1"]);
                 ("Connection", [Lit "keep-alive"]);
                 ("Cookie", cookie_of a' u t sid un)];
              oilLevel := Int 100; timerCache := Null |}
  | _, _, _, _, _, _ => None
  end.

Definition POLL_INTERVAL_MS : Z := 30000.

(** *** [_callApi] *)

(** The last two statements of the response handler: [resolve(json)] on
    status ['200'], [reject] otherwise. *)
Definition classify (json status : value) : settle value :=
  if is_string status "200" then Resolved json
  else Rejected (Error [Lit "API returned status "; Val status; Lit ": ";
                        Stringify json]).

(** [JSON.parse(data)]. *)
Definition JSON_parse (res : response) : M value :=
  match json res with
  | Some j => ret j
  | None => throw SyntaxError
  end.

(** The statements of the inner [try] block that come before the retry:
    await the refresh and overwrite the cached credentials. *)
Definition refresh_credentials : M unit :=
  creds <- platform_refreshSession ;;
  t <- read creds "token" ;;
  set_token t ;;
  u <- read creds "uid" ;;
  set_uid u ;;
  sid <- read creds "sessionId" ;;
  set_sessionId sid.

(** The ['end'] handler of the response; [recur] is [this._callApi]. *)
Definition on_end (recur : string -> list (string * value) -> nat -> M value)
    (path : string) (params : list (string * value)) (retryCount : nat)
    (res : response) : M (settle value) :=
  if statusCode res =? 200 then
    try_catch
      (json <- JSON_parse res ;;
       status <- read json "status" ;;
       if is_string status "AuthenticationException" || is_string status "401"
       then
         if (retryCount <? 1)%nat then
           refreshed <- attempt refresh_credentials ;;
           match refreshed with
           | Rejected err =>
               (* reject(err); control then reaches the status test, whose
                  resolve or reject finds the promise settled *)
               ret (first_settle (Rejected err) (classify json status))
           | _ =>
               (* return resolve(this._callApi(path, params, retryCount + 1)) *)
               attempt (recur path params (retryCount + 1)%nat)
           end
         else ret (Rejected (Error [Lit "Authentication failed after retry"]))
       else ret (classify json status))
      (fun _ =>
         ret (Rejected (Error [Lit "Invalid API response: ";
                               Lit (substring 0 50 (data res)); Lit "..."])))
  else
    ret (Rejected (Error [Lit "API HTTP Error "; Val (Int (statusCode res))])).

(** The [options] object [_callApi] builds when [Date.now()] reads [now]. *)
Definition options (d : Device) (now : Z) (path : string)
    (params : list (string * value)) : Http.request :=
  let timestamp := Number (Num (inject_Z now / 1000)) in
  let queryParams :=
    spread [("nid", nid d); ("timestamp", timestamp)] params in
  let resourcePath :=
    if startsWith path "/admin" then path else basePath d ++ path in
  {| Http.hostname := hostname d;
     Http.port := 80;
     Http.resourcePath := resourcePath;
     Http.query := queryParams;
     Http.method := "GET";
     Http.headers := assign "Cookie" (cookie d) (headers d) |}.

(** The body of [_callApi(path, params = {}, retryCount = 0)]. *)
Definition _callApi_body
    (recur : string -> list (string * value) -> nat -> M value)
    (path : string) (params : list (string * value)) (retryCount : nat)
  : M value :=
  now <- Date_now ;;
  d <- get_this ;;
  r <- http_request (options d now path params) ;;
  match r with
  | Response res => promise (on_end recur path params retryCount res)
  | SocketError e => throw e
  | NoReply => pending
  end.

(** [_callApi] calls itself only when [retryCount < 1], with
    [retryCount + 1]: two unfoldings of the body reach every call. *)
Fixpoint _callApi_fuel (fuel : nat)
  : string -> list (string * value) -> nat -> M value :=
  match fuel with
  | O => fun _ _ _ => pending
  | S fuel' => _callApi_body (_callApi_fuel fuel')
  end.

Definition _callApi : string -> list (string * value) -> nat -> M value :=
  _callApi_fuel 2.

(** *** The operations built on [_callApi] *)

Definition communication_failure : error :=
  HapStatusError SERVICE_COMMUNICATION_FAILURE.

Definition updateTimerIntensity (newRunTime : value) : M unit :=
  listJson <- try_catch (_callApi "/timerList.do" [("isBluetooth", Int 0)] 0%nat)
                        (fun error => throw error) ;;
  (* !listJson || !listJson.data || !listJson.data.length *)
  none <- (if negb (truthy listJson) then ret true
           else
             data <- read listJson "data" ;;
             if negb (truthy data) then ret true
             else
               len <- read data "length" ;;
               ret (negb (truthy len))) ;;
  if none : bool then throw (Error [Lit "No timers found to update intensity"])
  else
    data <- read listJson "data" ;;
    timer <- elem data 0 ;;
    set_timerCache timer ;;
    timerId <- read timer "timerId" ;;
    uid <- read timer "uid" ;;
    name <- read timer "name" ;;
    start <- read timer "start" ;;
    stop <- read timer "stop" ;;
    mode <- read timer "mode" ;;
    suspend <- read timer "suspend" ;;
    let params :=
      [("timerId", timerId); ("uid", uid); ("name", name); ("start", start);
       ("stop", stop); ("mode", mode); ("run", newRunTime);
       ("suspend", suspend)] in
    _callApi "/updateTimer.do" params 0%nat ;;
    ret tt.

(** [runTime] of [setRotationSpeed]. *)
Definition runTime_of (value : Q) : number :=
  Math_max (Num 5) (Math_round (Num (value * 3))).

Definition setRotationSpeed (value : Q) : M unit :=
  if Qeq_bool value 0 then ret tt
  else
    let runTime := runTime_of value in
    try_catch (updateTimerIntensity (Number runTime))
              (fun e => throw communication_failure).

Definition setLock (value : value) : M unit :=
  try_catch
    ((if truthy value
      then _callApi "/admin/amos/deviceLock.do" [] 0%nat
      else _callApi "/admin/amos/deviceUnlock.do"
                    [("days", Int 0); ("name", Str EmptyString)] 0%nat) ;;
     setTimeout PollStatus 1000)
    (fun error =>
       setTimeout (UpdateLock (if negb (truthy value) then Int 1 else Int 0))
                  500 ;;
       throw communication_failure).

Definition setOn (value : value) : M unit :=
  let endpoint :=
    if truthy value then "/openFragrance.do" else "/closeFragrance.do" in
  try_catch
    (_callApi endpoint [] 0%nat ;;
     set_isOn value)
    (fun error => throw communication_failure).

Definition getOn : M value :=
  d <- get_this ;;
  ret (isOn d).

Definition getOilLevel : M value :=
  d <- get_this ;;
  ret (or_else (oilLevel d) (Int 0)).

Definition resetFilter (value : value) : M unit :=
  try_catch
    (_callApi "/resetLiquidLevel.do" [("liquidLevel", Int 100)] 0%nat ;;
     set_oilLevel (Int 100) ;;
     updateCharacteristic FilterLifeLevel (Int 100) ;;
     updateCharacteristic FilterChangeIndication FILTER_OK)
    (fun error => throw communication_failure).

Section Coercion.

Variable ToNumber_ext : value -> number.

(** [Math.min(100, Math.round(run / 3))]. *)
Definition speed_of (run : value) : number :=
  Math_min (Num 100) (Math_round (div (ToNumber ToNumber_ext run) 3)).

Definition getRotationSpeed : M number :=
  d <- get_this ;;
  if truthy (timerCache d) then
    r <- read (timerCache d) "run" ;;
    let run := or_else r (Int 0) in
    ret (speed_of run)
  else ret (Num 50).

Definition pollStatus : M unit :=
  try_catch
    (response <- _callApi "/amosFragrance.do" [("checkPermissions", Int 0)]
                          0%nat ;;
     (* response && response.data *)
     some <- (if truthy response
              then data <- read response "data" ;; ret (truthy data)
              else ret false) ;;
     if some : bool then
       data <- read response "data" ;;
       status <- read data "status" ;;
       set_isOn (Bool (is_true status)) ;;
       liquidLevel <- read data "liquidLevel" ;;
       set_oilLevel (or_else liquidLevel (Int 0)) ;;
       d <- get_this ;;
       updateCharacteristic On (isOn d) ;;
       updateCharacteristic FilterLifeLevel (oilLevel d) ;;
       lockMark <- read data "lockMark" ;;
       let lockState :=
         if truthy lockMark then CONTROL_LOCK_ENABLED
         else CONTROL_LOCK_DISABLED in
       updateCharacteristic LockPhysicalControls lockState ;;
       run <- read data "run" ;;
       let speed := speed_of (or_else run (Int 0)) in
       updateCharacteristic RotationSpeed (Number speed)
     else ret tt)
    (fun e => ret tt).

(** Running a callback that [setTimeout] holds. *)
Definition fire (callback : task) : M unit :=
  match callback with
  | PollStatus => pollStatus
  | UpdateLock v => updateCharacteristic LockPhysicalControls v
  end.

End Coercion.

(** *** Vocabulary of the statements *)

(** The system once [_callApi(path, params)] has sent its request and the
    network has delivered its next reply. *)
Definition sent (path : string) (params : list (string * value)) (s : Sys)
  : Sys :=
  snd ((now <- Date_now ;;
        d <- get_this ;;
        http_request (options d now path params)) s).

(** The request [_callApi(path, params)] sends from state [s]. *)
Definition request_of (path : string) (params : list (string * value))
    (s : Sys) : Http.request :=
  options (this s) (clock (world s) (ticks (world s))) path params.

(** The reply the network delivers to the next request. *)
Definition delivered (s : Sys) : reply := hd NoReply (network (world s)).

(** The [status] field of the parsed body, when the body parses and the
    field can be read. *)
Definition status_of (res : response) : option value :=
  match json res with
  | Some j => prop j "status"
  | None => None
  end.

(** The response is classified as an authentication failure: HTTP 200 with
    JSON status ['AuthenticationException'] or ['401']. *)
Definition auth_failure (res : response) : bool :=
  (statusCode res =? 200) &&
  match status_of res with
  | Some st => is_string st "AuthenticationException" || is_string st "401"
  | None => false
  end.

(** The response is classified as a success: HTTP 200 with JSON status
    ['200']. *)
Definition success (res : response) : bool :=
  (statusCode res =? 200) &&
  match status_of res with
  | Some st => is_string st "200"
  | None => false
  end.

(** What [_callApi] leaves alone: every field of [this] other than the
    three credentials, the timers and the characteristic updates. *)
Definition preserved (s s' : Sys) : Prop :=
  nid (this s') = nid (this s) /\
  username (this s') = username (this s) /\
  appid (this s') = appid (this s) /\
  isOn (this s') = isOn (this s) /\
  hostname (this s') = hostname (this s) /\
  basePath (this s') = basePath (this s) /\
  headers (this s') = headers (this s) /\
  oilLevel (this s') = oilLevel (this s) /\
  timerCache (this s') = timerCache (this s) /\
  timers (trace s') = timers (trace s) /\
  updates (trace s') = updates (trace s).

(** The query and path rules of a request [rq] for [path] and [params],
    sent by a device whose id is [n] and base path [base]: the injected
    [nid] and [timestamp] are there unless the caller supplies those keys,
    every key the caller supplies carries one of the caller's values, and
    the base path is prepended unless the path starts with /admin. *)
Definition well_addressed (n : value) (base path : string)
    (params : list (string * value)) (rq : Http.request) : Prop :=
  (has_key "nid" params = false -> own "nid" (Http.query rq) = Some n) /\
  (has_key "timestamp" params = false ->
   exists now : Z,
     own "timestamp" (Http.query rq)
     = Some (Number (Num (inject_Z now / 1000)))) /\
  (forall k, has_key k params = true ->
     exists v, In (k, v) params /\ own k (Http.query rq) = Some v) /\
  (startsWith path "/admin" = true -> Http.resourcePath rq = path) /\
  (startsWith path "/admin" = false ->
   Http.resourcePath rq = base ++ path).

(** The params [updateTimerIntensity] sends for a fetched timer object
    with the given fields. *)
Definition update_params (timer : list (string * value)) (newRunTime : value)
  : list (string * value) :=
  [("timerId", lookup "timerId" timer); ("uid", lookup "uid" timer);
   ("name", lookup "name" timer); ("start", lookup "start" timer);
   ("stop", lookup "stop" timer); ("mode", lookup "mode" timer);
   ("run", newRunTime); ("suspend", lookup "suspend" timer)].

(** The outcome of an operation that awaits a call and returns nothing. *)
Definition lift_unit (o : settle value) : settle unit :=
  match o with
  | Resolved _ => Resolved tt
  | Rejected e => Rejected e
  | Pending => Pending
  end.

(** The calls the operations make. *)
Definition fetch_timers : M value :=
  _callApi "/timerList.do" [("isBluetooth", Int 0)] 0%nat.

Definition update_timer (timer : list (string * value)) (newRunTime : value)
  : M value :=
  _callApi "/updateTimer.do" (update_params timer newRunTime) 0%nat.

Definition fetch_status : M value :=
  _callApi "/amosFragrance.do" [("checkPermissions", Int 0)] 0%nat.

(** The call [setLock(value)] makes. *)
Definition lock_path (requested : value) : string :=
  if truthy requested then "/admin/amos/deviceLock.do"
  else "/admin/amos/deviceUnlock.do".

Definition lock_call (requested : value) : M value :=
  if truthy requested
  then _callApi "/admin/amos/deviceLock.do" [] 0%nat
  else _callApi "/admin/amos/deviceUnlock.do"
                [("days", Int 0); ("name", Str EmptyString)] 0%nat.

(** The lock flag opposite to the requested one. *)
Definition opposite (requested : value) : value :=
  if truthy requested then CONTROL_LOCK_DISABLED else CONTROL_LOCK_ENABLED.



(** The outcome of a call whose retry also met an authentication
    failure. *)
Definition AUTH_EXHAUSTED : error :=
  Error [Lit "Authentication failed after retry"].

(** The three courses a call [r = _callApi path params retryCount s] can
    take: one exchange; one exchange and a refresh that fails or never
    settles; or one exchange, a refresh and the retry. *)
Inductive course (path : string) (params : list (string * value))
    (s : Sys) (r : settle value * Sys) : Prop :=
| Single :
    r = _callApi path params 1 s ->
    snd r = sent path params s ->
    course path params s r
| RefreshFailed res :
    delivered s = Response res -> auth_failure res = true ->
    snd r = snd (refresh_credentials (sent path params s)) ->
    fst (refresh_credentials (sent path params s)) <> Resolved tt ->
    (forall j, fst r <> Resolved j) ->
    course path params s r
| Retried res s2 :
    delivered s = Response res -> auth_failure res = true ->
    refresh_credentials (sent path params s) = (Resolved tt, s2) ->
    r = _callApi path params 1 s2 ->
    snd r = sent path params s2 ->
    course path params s r.

(** The value a characteristic holds after the recorded updates, if any
    update wrote it. *)
Fixpoint current (c : characteristic) (us : list (characteristic * value))
  : option value :=
  match us with
  | [] => None
  | (c', v) :: rest =>
      match current c rest with
      | Some v' => Some v'
      | None =>
          match c, c' with
          | On, On | RotationSpeed, RotationSpeed
          | LockPhysicalControls, LockPhysicalControls
          | FilterLifeLevel, FilterLifeLevel
          | FilterChangeIndication, FilterChangeIndication => Some v
          | _, _ => None
          end
      end
  end.

(** *** The FilterChangeIndication handler *)

Section FilterIndication.

Variable ToNumber_ext : value -> number.

(** [v < bound] for a number literal [bound]: false when [v] converts to
    NaN. *)
Definition less_than (v : value) (bound : Q) : bool :=
  match ToNumber ToNumber_ext v with
  | NaN => false
  | Num q => negb (Qle_bool bound q)
  end.

(** The [onGet] handler the constructor registers for
    FilterChangeIndication. *)
Definition getFilterChangeIndication : M value :=
  level <- getOilLevel ;;
  ret (if less_than level 10 then CHANGE_FILTER else FILTER_OK).

End FilterIndication.

(** The three cached credentials. *)
Definition credentials (d : Device) : value * value * value :=
  (token d, uid d, sessionId d).

(** The caches and the records of timers and characteristic updates are as
    they were. *)
Definition untouched (s s' : Sys) : Prop :=
  this s' = this s /\
  timers (trace s') = timers (trace s) /\
  updates (trace s') = updates (trace s).

(** The error of a response with an HTTP status other than 200. *)
Definition HTTP_ERROR (res : response) : error :=
  Error [Lit "API HTTP Error "; Val (Int (statusCode res))].

(** The error of a body that does not parse, or whose status cannot be
    read. *)
Definition INVALID_RESPONSE (res : response) : error :=
  Error [Lit "Invalid API response: "; Lit (substring 0 50 (data res));
         Lit "..."].

(** The error of a parsed body [j] whose status [st] is neither a success
    nor an authentication failure. *)
Definition STATUS_ERROR (j st : value) : error :=
  Error [Lit "API returned status "; Val st; Lit ": "; Stringify j].

(** What a call that ends after its first exchange leaves behind: that one
    exchange, no refresh, and [this], the timers and the updates as they
    were. *)
Definition one_exchange_only (path : string) (params : list (string * value))
    (s s' : Sys) : Prop :=
  exchanges (trace s')
  = (exchanges (trace s) ++ [(request_of path params s, delivered s)])%list /\
  refreshes (trace s') = refreshes (trace s) /\
  untouched s s'.

(** How the next [platform.refreshSession()] settles. *)
Definition next_refresh (s : Sys) : settle value :=
  hd Pending (session (world s)).

(** The call [setOn(value)] makes. *)
Definition power_path (requested : value) : string :=
  if truthy requested then "/openFragrance.do" else "/closeFragrance.do".

Definition power_call (requested : value) : M value :=
  _callApi (power_path requested) [] 0%nat.

(** The call [resetFilter] makes. *)
Definition reset_call : M value :=
  _callApi "/resetLiquidLevel.do" [("liquidLevel", Int 100)] 0%nat.

End Accessory.

(** ** Device registration: [autoDiscover], [discoverDevices] and
       [addAccessory] (src/platform.js) *)

Module Discovery.

Import JS.

(** A platform accessory of Homebridge, as far as the platform reads and
    writes it. *)
Record PlatformAccessory := {
  UUID : string;
  displayName : value
}.

(** The device configuration [discoverDevices] builds; [nid] is the result
    of [toString()], a string. *)
Record DeviceConfig := {
  name : value;
  nid : string;
  token : value;
  username : value;
  appid : value;
  uid : value;
  sessionId : value;
  oilName : value;
  model : value
}.

(** The calls the platform makes to Homebridge and to the accessory
    constructor.  What the constructor does with the accessory is the
    subject of [Accessory]. *)
Inductive call :=
| UpdatePlatformAccessories (a : PlatformAccessory)
| RegisterPlatformAccessories (a : PlatformAccessory)
| NewDiffuserAccessory (a : PlatformAccessory) (c : DeviceConfig).

Record State := {
  config_email : value;                  (* this.config.email *)
  config_appid : value;                  (* this.config.appid *)
  accessories : list PlatformAccessory;  (* this.accessories *)
  calls : list call                      (* oldest first *)
}.

(** [configureAccessory(accessory)]. *)
Definition configureAccessory (a : PlatformAccessory) (st : State) : State :=
  {| config_email := config_email st;
     config_appid := config_appid st;
     accessories := accessories st ++ [a];
     calls := calls st |}.

(** [a !== b] negated.  Arrays and objects are compared by identity: a value
    of a parsed device listing is never the object a cached accessory
    holds. *)
Definition strict_equal (a b : value) : bool :=
  match a, b with
  | Undefined, Undefined => true
  | Null, Null => true
  | Bool x, Bool y => Bool.eqb x y
  | Number (Num x), Number (Num y) => Qeq_bool x y
  | Str x, Str y => String.eqb x y
  | _, _ => false
  end.

(** [this.accessories.find(accessory => accessory.UUID === uuid)], with the
    position of what it finds. *)
Fixpoint find (uuid : string) (accs : list PlatformAccessory)
  : option (nat * PlatformAccessory) :=
  match accs with
  | [] => None
  | a :: rest =>
      if String.eqb (UUID a) uuid then Some (O, a)
      else match find uuid rest with
           | Some (i, b) => Some (S i, b)
           | None => None
           end
  end.

(** The accessory at position [i] takes the display name [n]; the array
    holds the object that is renamed. *)
Fixpoint rename (i : nat) (n : value) (accs : list PlatformAccessory)
  : list PlatformAccessory :=
  match accs, i with
  | [], _ => []
  | a :: rest, O => {| UUID := UUID a; displayName := n |} :: rest
  | a :: rest, S j => a :: rename j n rest
  end.

(** [v.k] where [v] is known not to be [null] or [undefined]. *)
Definition field (v : value) (k : string) : value :=
  match prop v k with
  | Some x => x
  | None => Undefined
  end.

Section Homebridge.

(** [api.hap.uuid.generate] belongs to Homebridge. *)
Variable generate : string -> string.

(** [v.toString()] for a value that is not a string, [null] or
    [undefined]: the number-to-string conversion and the methods of the other
    prototypes are not part of this repository. *)
Variable toString_ext : value -> error + string.

Variable ToNumber_ext : value -> number.

(** [v > bound]. *)
Definition greater_than (v : value) (bound : Q) : bool :=
  match ToNumber ToNumber_ext v with
  | NaN => false
  | Num q => negb (Qle_bool q bound)
  end.

(** [v.toString()]. *)
Definition toString (v : value) : error + string :=
  match v with
  | Undefined | Null => inl (TypeError "toString")
  | Str s => inr s
  | _ => toString_ext v
  end.

(** [addAccessory(deviceConfig)]. *)
Definition addAccessory (c : DeviceConfig) (st : State) : State :=
  if negb (truthy (token c)) || negb (truthy (Str (nid c))) then st
  else
    let uuid := generate (nid c) in
    match find uuid (accessories st) with
    | Some (i, existingAccessory) =>
        if negb (strict_equal (displayName existingAccessory) (name c)) then
          let renamed := {| UUID := UUID existingAccessory;
                            displayName := name c |} in
          {| config_email := config_email st;
             config_appid := config_appid st;
             accessories := rename i (name c) (accessories st);
             calls := calls st ++ [UpdatePlatformAccessories renamed;
                                   NewDiffuserAccessory renamed c] |}
        else
          {| config_email := config_email st;
             config_appid := config_appid st;
             accessories := accessories st;
             calls := calls st ++ [NewDiffuserAccessory existingAccessory c] |}
    | None =>
        let accessory := {| UUID := uuid; displayName := name c |} in
        {| config_email := config_email st;
           config_appid := config_appid st;
           accessories := accessories st;
           calls := calls st ++ [NewDiffuserAccessory accessory c;
                                 RegisterPlatformAccessories accessory] |}
    end.

(** The object literal [deviceConfig] of [discoverDevices], evaluated field
    by field. *)
Definition deviceConfig_of (device sessionCreds : value) (st : State)
  : error + DeviceConfig :=
  match prop device "nickname" with
  | None => inl (TypeError "nickname")
  | Some nickname =>
      match toString (field device "nid") with
      | inl e => inl e
      | inr nid_text =>
          match prop sessionCreds "token" with
          | None => inl (TypeError "token")
          | Some session_token =>
              let deviceType := field device "deviceType" in
              inr {| name :=
                       or_else nickname
                         (or_else (field device "deviceAlias")
                            (or_else (field device "hsn")
                                     (Str "Smart Diffuser")));
                     nid := nid_text;
                     token := session_token;
                     username := config_email st;
                     appid := or_else (config_appid st) (Str "19987617");
                     uid := field sessionCreds "uid";
                     sessionId := field sessionCreds "sessionId";
                     oilName := field device "oilName";
                     model :=
                       if truthy deviceType
                          && truthy (field deviceType "typeCode")
                       then field deviceType "typeCode"
                       else Str "Smart Diffuser" |}
          end
      end
  end.

(** [devices.forEach(device => ...)]: an exception leaves the loop, and
    what was done before it stays done. *)
Fixpoint forEach (devices : list value) (sessionCreds : value) (st : State)
  : option error * State :=
  match devices with
  | [] => (None, st)
  | device :: rest =>
      match deviceConfig_of device sessionCreds st with
      | inl e => (Some e, st)
      | inr c => forEach rest sessionCreds (addAccessory c st)
      end
  end.

(** [discoverDevices(devices, sessionCreds)]: the exception it throws, if
    any, and the state it leaves. *)
Definition discoverDevices (devices sessionCreds : value) (st : State)
  : option error * State :=
  if truthy devices && greater_than (field devices "length") 0 then
    match devices with
    | Arr items => forEach items sessionCreds st
    | _ => (Some (TypeError "forEach"), st)
    end
  else (None, st).

(** [autoDiscover()], once [auth.getCredentials] has settled with [creds].
    The [catch] block logs what the [try] block throws, so nothing leaves
    the function. *)
Definition autoDiscover (creds : settle value) (st : State) : State :=
  match creds with
  | Resolved c =>
      if truthy c then
        match field c "token" with
        | Str _ =>
            snd (discoverDevices (field c "devices")
                   (Obj [("token", field c "token");
                         ("uid", field c "uid");
                         ("sessionId", field c "sessionId")])
                   st)
        | _ => st
        end
      else st
  | Rejected _ | Pending => st
  end.

(** *** Vocabulary of the statements *)

(** The accessory object constructed over [a] with the configuration [c]
    belongs to a device of [devices] and to the session [sessionCreds]: the
    UUID is generated from the device's nid, the name, the token and the nid
    are not empty, and the credentials are those of the session. *)
Definition fits (sessionCreds : value) (devices : list value) (st : State)
    (a : PlatformAccessory) (c : DeviceConfig) : Prop :=
  UUID a = generate (nid c) /\
  truthy (name c) = true /\
  truthy (token c) = true /\
  nid c <> EmptyString /\
  prop sessionCreds "token" = Some (token c) /\
  uid c = field sessionCreds "uid" /\
  sessionId c = field sessionCreds "sessionId" /\
  username c = config_email st /\
  exists device,
    In device devices /\ toString (field device "nid") = inr (nid c).

End Homebridge.

Definition registered (cs : list call) : list PlatformAccessory :=
  flat_map (fun c => match c with
                     | RegisterPlatformAccessories a => [a]
                     | _ => []
                     end) cs.

Definition constructed (cs : list call) : list (PlatformAccessory * DeviceConfig) :=
  flat_map (fun c => match c with
                     | NewDiffuserAccessory a d => [(a, d)]
                     | _ => []
                     end) cs.

(** No cached accessory has the UUID [u]. *)
Definition uncached (u : string) (st : State) : Prop :=
  ~ In u (map UUID (accessories st)).

End Discovery.

(** ** Concrete scenarios, after the repository's tests *)

Module Scenario.

Import JS Accessory.

Definition config : value :=
  Obj [("nid", Str "12345"); ("token", Str "token");
       ("username", Str "user@example.com"); ("uid", Str "uid");
       ("sessionId", Str "sid"); ("name", Str "Test Diffuser")].

Definition device : Device :=
  {| nid := Str "12345"; token := Str "token";
     username := Str "user@example.com"; appid := Str "19987617";
     uid := Str "uid"; sessionId := Str "sid"; isOn := Bool false;
     hostname := "amos.us.lbslm.com"; basePath := "/amosFragrance";
     headers :=
       [("Host", [Lit "amos.us.lbslm.com"]);
        ("Accept", [Lit "*/*"]);
        ("User-Agent",
         [Lit "UPerfume/2.1.5 (iPhone; iOS 26.3; Scale/3.00)"]);
        ("Accept-Language", [Lit "en-US;q=1"]);
        ("Connection", [Lit "keep-alive"]);
        ("Cookie",
         cookie_of (Str "19987617") (Str "uid") (Str "token") (Str "sid")
                   (Str "user@example.com"))];
     oilLevel := Int 100; timerCache := Null |}.

(** A system around [device] whose network and platform follow the given
    scripts, at a fixed time. *)
Definition system (net : list reply) (ses : list (settle value)) : Sys :=
  {| this := device;
     world := {| network := net; session := ses;
                 clock := fun _ => 1700000000500; ticks := 0 |};
     trace := {| exchanges := []; refreshes := 0; timers := [];
                 updates := [] |} |}.

(** An HTTP 200 response whose body parses to [j]. *)
Definition ok (j : value) : reply :=
  Response {| statusCode := 200; data := "{...}"; json := Some j |}.

Definition auth_exception : reply :=
  ok (Obj [("status", Str "AuthenticationException"); ("msg", Str "Fail")]).

Definition status_200 : reply := ok (Obj [("status", Str "200")]).

Definition http_500 : reply :=
  Response {| statusCode := 500; data := EmptyString; json := None |}.

Definition new_credentials : value :=
  Obj [("token", Str "new-token"); ("uid", Str "u"); ("sessionId", Str "s")].

Definition timer : value :=
  Obj [("timerId", Int 1); ("uid", Str "uid"); ("name", Str "Timer 1");
       ("start", Str "08:00"); ("stop", Str "20:00"); ("mode", Int 1);
       ("run", Int 5); ("suspend", Int 120)].

Definition timer_list : reply :=
  ok (Obj [("status", Str "200"); ("data", Arr [timer])]).

Definition empty_timer_list : reply :=
  ok (Obj [("status", Str "200"); ("data", Arr [])]).



Definition idle_platform : Platform.Platform :=
  {| Platform.email := Str "user@example.com";
     Platform.password := Str "secret";
     Platform._refreshPromise := None;
     Platform.promises := [];
     Platform.logins := 0 |}.

Definition account_credentials : value :=
  Obj [("nid", Str "n"); ("token", Str "new"); ("uid", Str "1");
       ("sessionId", Str "2"); ("devices", Arr [])].


Definition status_500 : reply :=
  ok (Obj [("status", Str "500"); ("msg", Str "busy")]).

Definition connection_reset : error := Error [Lit "ECONNRESET"].

Definition invalid_credentials : error := Error [Lit "Invalid Credentials"].

(** The cookies of a login, and the login response that sets them. *)
Definition login_cookies : list string :=
  ["lang=en; Path=/"; "uid=42; Path=/; HttpOnly"; "token=tok123; Path=/";
   "sessionId=sess9"].

Definition login_with (cookies : list string) : Auth.reply :=
  Auth.Response {| Auth.statusCode := 200;
                   Auth.set_cookie := Some cookies;
                   Auth.data := "OK" |}.

(** A device listing whose body parses to [j]. *)
Definition listing_of (j : value) : Auth.listing :=
  {| Auth.listing_statusCode := 200;
     Auth.listing_data := "{...}";
     Auth.listing_json := Some j |}.

Definition bedroom : value :=
  Obj [("nid", Str "12345"); ("nickname", Str "Bedroom");
       ("oilName", Str "Lavender")].

Definition hallway : value :=
  Obj [("nid", Str "67890"); ("hsn", Str "HSN-2")].

(** A listed device without a nid. *)
Definition ghost : value := Obj [("nickname", Str "Ghost")].

Definition device_listing : Auth.listing :=
  listing_of (Obj [("data", Arr [bedroom; hallway])]).

Definition empty_listing : Auth.listing :=
  listing_of (Obj [("data", Arr [])]).

Definition unconfigured_platform : Platform.Platform :=
  {| Platform.email := Str "user@example.com";
     Platform.password := Undefined;
     Platform._refreshPromise := None;
     Platform.promises := [];
     Platform.logins := 0 |}.

(** A platform that has restored no accessory. *)
Definition empty_cache : Discovery.State :=
  {| Discovery.config_email := Str "user@example.com";
     Discovery.config_appid := Undefined;
     Discovery.accessories := [];
     Discovery.calls := [] |}.

Definition session_credentials : value :=
  Obj [("token", Str "tok123"); ("uid", Str "42");
       ("sessionId", Str "sess9")].

(** Stand-ins for what Homebridge and the JavaScript runtime provide. *)
Definition uuid_of (nid : string) : string := "uuid-" ++ nid.

Definition no_toString (v : value) : error + string :=
  inl (TypeError "toString").

Definition no_number (v : value) : number := NaN.

End Scenario.

(** * Properties *)

(** ** Facts about the JavaScript primitives *)

Module JSFacts.
Import JS.

Lemma prefix_append p s :
  String.prefix p s = true <-> exists rest, s = p ++ rest.
Proof.
  revert s. induction p as [|c p IH]; intros s.
  - split; [intros _; exists s; reflexivity | now destruct s].
  - destruct s as [|c' s]; simpl.
    + split; [discriminate | intros [rest H]; discriminate].
    + destruct (Ascii.ascii_dec c c') as [->|Hne].
      * rewrite IH. split; intros [rest H]; exists rest.
        -- now rewrite H.
        -- now injection H.
      * split; [discriminate | intros [rest H]; injection H; congruence].
Qed.

Lemma includes_spec s p :
  includes s p = true <-> exists before after, s = before ++ p ++ after.
Proof.
  induction s as [|c s IH]; cbn [includes].
  - destruct (String.prefix p EmptyString) eqn:E.
    + apply prefix_append in E. destruct E as [rest E].
      split; [intros _; exists EmptyString, rest; exact E | reflexivity].
    + split; [discriminate|].
      intros [[|c b] [a H]]; simpl in H.
      * assert (String.prefix p EmptyString = true) by (apply prefix_append; eauto).
        congruence.
      * discriminate.
  - destruct (String.prefix p (String c s)) eqn:E.
    + apply prefix_append in E. destruct E as [rest E].
      split; [intros _; exists EmptyString, rest; exact E | reflexivity].
    + rewrite IH. split.
      * intros [b [a H]]. exists (String c b), a. simpl. now rewrite H.
      * intros [[|c' b] [a H]]; simpl in H.
        -- assert (String.prefix p (String c s) = true)
             by (apply prefix_append; eauto).
           congruence.
        -- injection H as _ H. eauto.
Qed.

Lemma own_assign_same {V} k (v : V) fields :
  own k (assign k v fields) = Some v.
Proof.
  induction fields as [|[k' v'] rest IH]; simpl.
  - now rewrite String.eqb_refl.
  - destruct (String.eqb k k') eqn:E; simpl;
      [rewrite String.eqb_refl | rewrite E]; auto.
Qed.

Lemma own_assign_other {V} k k' (v : V) fields :
  k <> k' -> own k (assign k' v fields) = own k fields.
Proof.
  intros Hne. induction fields as [|[k2 v2] rest IH]; simpl.
  - destruct (String.eqb_spec k k'); congruence.
  - destruct (String.eqb_spec k' k2); simpl.
    + subst. destruct (String.eqb_spec k k2); congruence.
    + destruct (String.eqb_spec k k2); auto.
Qed.

(** A key the caller does not supply keeps the value it has in the base
    object. *)
Lemma own_spread_absent k base params :
  has_key k params = false -> own k (spread base params) = own k base.
Proof.
  unfold spread, has_key. revert base.
  induction params as [|[k' v'] rest IH]; intros base; simpl; auto.
  destruct (String.eqb_spec k k'); [discriminate|].
  intros H. rewrite IH by exact H. now apply own_assign_other.
Qed.

(** A key the caller supplies takes one of the caller's values. *)
Lemma own_spread_present k base params :
  has_key k params = true ->
  exists v, In (k, v) params /\ own k (spread base params) = Some v.
Proof.
  unfold spread, has_key. revert base.
  induction params as [|[k' v'] rest IH]; intros base; simpl; [discriminate|].
  destruct (own k rest) eqn:E.
  - intros _. destruct (IH (assign k' v' base)) as [w [Hin Hw]].
    + reflexivity.
    + exists w. auto.
  - destruct (String.eqb_spec k k'); [|discriminate]. subst k'. intros _.
    exists v'. split; [now left|].
    change (own k (spread (assign k v' base) rest) = Some v').
    rewrite own_spread_absent by (unfold has_key; now rewrite E).
    apply own_assign_same.
Qed.

Lemma round_inject_Z z : round (inject_Z z) = z.
Proof.
  unfold round.
  assert (H : (inject_Z z + (1 # 2) == (2 * z + 1) # 2)%Q).
  { unfold Qeq, Qplus, inject_Z. cbn [Qnum Qden]. lia. }
  rewrite (Qfloor_comp _ _ H). unfold Qfloor.
  symmetry. apply Z.div_unique with (r := 1); lia.
Qed.

Lemma round_comp q q' : (q == q')%Q -> round q = round q'.
Proof.
  intros H. unfold round. apply Qfloor_comp. now rewrite H.
Qed.

Lemma round_monotone q q' : (q <= q')%Q -> round q <= round q'.
Proof.
  intros H. unfold round. apply Qfloor_resp_le.
  apply Qplus_le_compat; [exact H | apply Qle_refl].
Qed.

Lemma Math_max_Z a b :
  Math_max (Num (inject_Z a)) (Num (inject_Z b)) = Num (inject_Z (Z.max a b)).
Proof.
  unfold Math_max.
  destruct (Qle_bool (inject_Z a) (inject_Z b)) eqn:E.
  - apply Qle_bool_iff in E. rewrite <- Zle_Qle in E.
    now rewrite Z.max_r.
  - assert (~ a <= b).
    { intros H. rewrite Zle_Qle in H. apply Qle_bool_iff in H. congruence. }
    now rewrite Z.max_l by lia.
Qed.

Lemma Math_min_Z a b :
  Math_min (Num (inject_Z a)) (Num (inject_Z b)) = Num (inject_Z (Z.min a b)).
Proof.
  unfold Math_min.
  destruct (Qle_bool (inject_Z a) (inject_Z b)) eqn:E.
  - apply Qle_bool_iff in E. rewrite <- Zle_Qle in E.
    now rewrite Z.min_l.
  - assert (~ a <= b).
    { intros H. rewrite Zle_Qle in H. apply Qle_bool_iff in H. congruence. }
    now rewrite Z.min_r by lia.
Qed.

End JSFacts.

(** ** The Auth Service *)

Module AuthSpec.
Import JS Auth.

Lemma status_in_range z :
  200 <= z < 400 -> (200 <=? z) && (z <? 400) = true.
Proof.
  intros H. apply andb_true_iff. split; [apply Z.leb_le | apply Z.ltb_lt]; lia.
Qed.

Lemma status_out_of_range z :
  ~ 200 <= z < 400 -> (200 <=? z) && (z <? 400) = false.
Proof.
  intros H. apply andb_false_iff.
  destruct (Z.leb_spec 200 z); [right | now left].
  apply Z.ltb_ge. lia.
Qed.

(** C7.  A login answered with a 2xx or 3xx status and no Set-Cookie header
    fails with "Invalid Credentials" when the body contains the marker
    AuthenticationException, and otherwise resolves with null; a login
    answered with any other status fails with the error "HTTP <status>". *)
Theorem login_response_outcome host username password res :
  (200 <= statusCode res < 400 -> set_cookie res = None ->
   marked (data res) ->
   snd (login host username password (Response res))
   = Rejected (Error [Lit "Invalid Credentials"])) /\
  (200 <= statusCode res < 400 -> set_cookie res = None ->
   ~ marked (data res) ->
   snd (login host username password (Response res)) = Resolved None) /\
  (~ 200 <= statusCode res < 400 ->
   snd (login host username password (Response res))
   = Rejected (Error [Lit "HTTP "; Val (Int (statusCode res))])).
Proof.
  unfold login, login_response, marked; cbn [snd].
  repeat split.
  - intros Hs Hc Hm. apply JSFacts.includes_spec in Hm.
    now rewrite Hc, Hm, status_in_range.
  - intros Hs Hc Hm. rewrite <- JSFacts.includes_spec in Hm.
    apply not_true_is_false in Hm.
    now rewrite Hc, Hm, status_in_range.
  - intros Hs. now rewrite status_out_of_range.
Qed.

Lemma login_response_outcome_witness :
  snd (login "amos.cn.lbslm.com" "user" "pass"
         (Response {| statusCode := 200; set_cookie := None;
                      data := "{status:fail, msg:AuthenticationException}" |}))
  = Rejected (Error [Lit "Invalid Credentials"]) /\
  snd (login "amos.cn.lbslm.com" "user" "pass"
         (Response {| statusCode := 200; set_cookie := None; data := "OK" |}))
  = Resolved None /\
  snd (login "amos.cn.lbslm.com" "user" "pass"
         (Response {| statusCode := 401; set_cookie := None; data := EmptyString |}))
  = Rejected (Error [Lit "HTTP "; Val (Int 401)]).
Proof.
  split; [|split].
  - apply (proj1 (login_response_outcome _ _ _ _)).
    + cbn; lia.
    + reflexivity.
    + exists "{status:fail, msg:", "}". reflexivity.
  - apply (proj1 (proj2 (login_response_outcome _ _ _ _))).
    + cbn; lia.
    + reflexivity.
    + intros H. apply JSFacts.includes_spec in H. discriminate H.
  - apply (proj2 (proj2 (login_response_outcome _ _ _
             {| statusCode := 401; set_cookie := None; data := EmptyString |}))).
    cbn; lia.
Defined.

(** *** Splitting *)

Lemma append_assoc (a b c : string) : (a ++ b) ++ c = a ++ b ++ c.
Proof. induction a as [|x a IH]; cbn; [reflexivity | now rewrite IH]. Qed.

Lemma append_nil_r (a : string) : a ++ EmptyString = a.
Proof. induction a as [|x a IH]; cbn; [reflexivity | now rewrite IH]. Qed.

Lemma includes_cons_false c s p :
  includes (String c s) p = false ->
  String.prefix p (String c s) = false /\ includes s p = false.
Proof.
  cbn [includes]. destruct (String.prefix p (String c s)); [discriminate|auto].
Qed.

(** Passing over the rest of a matched separator. *)
Lemma split_from_skip sep x piece s :
  split_from sep (String.length x) piece (x ++ s) = split_from sep 0 piece s.
Proof.
  induction x as [|c x IH]; cbn [String.length append].
  - now destruct s.
  - cbn [split_from]. exact IH.
Qed.

(** A text without the separator is one piece. *)
Lemma split_from_no_match sep piece s :
  includes s sep = false -> split_from sep 0 piece s = [piece ++ s].
Proof.
  revert piece. induction s as [|c s IH]; intros piece H.
  - cbn. now rewrite append_nil_r.
  - apply includes_cons_false in H. destruct H as [Hp Hs].
    cbn [split_from]. rewrite Hp, (IH _ Hs), append_assoc. reflexivity.
Qed.

(** A separator at the head closes the piece being read. *)
Lemma split_from_match sep piece s :
  sep <> EmptyString ->
  split_from sep 0 piece (sep ++ s)
  = piece :: split_from sep 0 EmptyString s.
Proof.
  intros Hne. destruct sep as [|c sep]; [congruence|].
  assert (Hp : String.prefix (String c sep) (String c sep ++ s) = true).
  { apply JSFacts.prefix_append. eauto. }
  cbn [append] in *. cbn [split_from]. rewrite Hp.
  cbn [String.length Nat.sub]. rewrite Nat.sub_0_r.
  now rewrite split_from_skip.
Qed.

(** The first piece starts with what has been read so far. *)
Lemma split_from_first sep piece s :
  exists more others, split_from sep 0 piece s = (piece ++ more) :: others.
Proof.
  revert piece. induction s as [|c s IH]; intros piece.
  - exists EmptyString, []. cbn. now rewrite append_nil_r.
  - cbn [split_from]. destruct (String.prefix sep (String c s)).
    + exists EmptyString. eexists. now rewrite append_nil_r.
    + destruct (IH (piece ++ String c EmptyString)) as (more & others & H).
      exists (String c more), others. rewrite H, append_assoc. reflexivity.
Qed.

Lemma split_from_nonempty sep skip piece s :
  exists first others, split_from sep skip piece s = first :: others.
Proof.
  revert skip piece. induction s as [|c s IH]; intros skip piece.
  - cbn. eauto.
  - cbn [split_from]. destruct skip as [|k]; [|apply IH].
    destruct (String.prefix sep (String c s)); [eauto | apply IH].
Qed.

(** A text that contains the separator splits into two pieces at least. *)
Lemma split_from_two sep piece s :
  sep <> EmptyString -> includes s sep = true ->
  exists first second others,
    split_from sep 0 piece s = first :: second :: others.
Proof.
  intros Hne. revert piece. induction s as [|c s IH]; intros piece H.
  - cbn in H. destruct sep; [congruence | discriminate].
  - cbn [includes] in H. cbn [split_from].
    destruct (String.prefix sep (String c s)).
    + destruct (split_from_nonempty sep (String.length sep - 1) EmptyString s)
        as (second & others & E).
      rewrite E. eauto.
    + now apply IH.
Qed.

Lemma prefix_includes p s : String.prefix p s = true -> includes s p = true.
Proof. intros H. destruct s; cbn [includes]; now rewrite H. Qed.

(** A prefix of [x ++ y] is a prefix of [x], or it covers [x] and goes on
    into [y]. *)
Lemma prefix_append_cases sep x y :
  String.prefix sep (x ++ y) = true ->
  String.prefix sep x = true \/
  exists k, sep = x ++ k /\ k <> EmptyString /\ String.prefix k y = true.
Proof.
  revert sep. induction x as [|a x IH]; intros sep Hp.
  - destruct sep as [|b sep]; [now left|].
    right. exists (String b sep). split; [reflexivity|]. split; [discriminate|].
    exact Hp.
  - destruct sep as [|b sep]; [now left|].
    cbn [append String.prefix] in Hp |- *.
    destruct (Ascii.ascii_dec b a) as [->|]; [|discriminate].
    destruct (IH _ Hp) as [H | (k & -> & Hk & Hy)]; [now left|].
    right. exists k. auto.
Qed.

(** A separator cannot start inside [x] when [x] does not contain it and
    [x] is followed by a character the separator does not have. *)
Lemma prefix_across sep x c rest :
  includes x sep = false ->
  includes sep (String c EmptyString) = false ->
  String.prefix sep (x ++ String c rest) = false.
Proof.
  intros Hx Hc.
  destruct (String.prefix sep (x ++ String c rest)) eqn:Hp; [|reflexivity].
  exfalso.
  destruct (prefix_append_cases _ _ _ Hp) as [H | (k & -> & Hk & Hy)].
  - apply prefix_includes in H. congruence.
  - destruct k as [|b k]; [congruence|].
    cbn [String.prefix] in Hy.
    destruct (Ascii.ascii_dec b c) as [->|]; [|discriminate].
    assert (includes (x ++ String c k) (String c EmptyString) = true).
    { apply JSFacts.includes_spec. exists x, k. reflexivity. }
    congruence.
Qed.

(** Reading on through [x]: no separator starts in it. *)
Lemma split_from_through sep piece x c rest :
  includes x sep = false ->
  includes sep (String c EmptyString) = false ->
  split_from sep 0 piece (x ++ String c rest)
  = split_from sep 0 (piece ++ x) (String c rest).
Proof.
  intros Hx Hc. revert piece. induction x as [|a x IH]; intros piece.
  - now rewrite append_nil_r.
  - pose proof (prefix_across sep (String a x) c rest Hx Hc) as Hp.
    apply includes_cons_false in Hx. destruct Hx as [_ Hx].
    cbn [append] in Hp |- *. cbn [split_from]. rewrite Hp.
    rewrite (IH Hx), append_assoc. reflexivity.
Qed.

Lemma includes_empty key : key <> EmptyString -> includes EmptyString key = false.
Proof. now destruct key. Qed.

(** Splitting at the first [;]. *)
Lemma split_semicolon piece x more :
  includes x ";" = false ->
  split_from ";" 0 piece (x ++ String ";" more)
  = (piece ++ x) :: split_from ";" 0 EmptyString more.
Proof.
  revert piece. induction x as [|a x IH]; intros piece Hx.
  - cbn [append split_from String.prefix].
    destruct (Ascii.ascii_dec ";" ";"); [|congruence].
    rewrite append_nil_r. now destruct more.
  - apply includes_cons_false in Hx. destruct Hx as [Hp Hx].
    cbn [String.prefix] in Hp.
    cbn [append split_from String.prefix].
    destruct (Ascii.ascii_dec ";" a).
    + now destruct x.
    + rewrite (IH _ Hx), append_assoc. reflexivity.
Qed.

(** The value of a cookie field.  For a cookie that starts with [key],
    goes on with a value [v] and then either ends or continues with a [;],
    [c.split(key)[1].split(';')[0]] is [v], provided [v] contains neither
    [;] nor the key and the key contains no [;]. *)
Lemma field_after_value key v tail :
  key <> EmptyString ->
  includes key ";" = false ->
  includes v key = false ->
  includes v ";" = false ->
  tail = EmptyString \/ (exists attrs, tail = String ";" attrs) ->
  field_after key (key ++ v ++ tail) = Some (Str v).
Proof.
  intros Hk Hks Hvk Hvs Htail. unfold field_after, split.
  rewrite (split_from_match _ _ _ Hk).
  destruct Htail as [-> | (attrs & ->)].
  - rewrite append_nil_r, (split_from_no_match _ _ _ Hvk). cbn [nth_error].
    now rewrite (split_from_no_match _ _ _ Hvs).
  - rewrite (split_from_through _ _ _ _ _ Hvk Hks).
    cbn [split_from].
    pose proof (prefix_across key EmptyString ";" attrs
                  (includes_empty _ Hk) Hks) as Hp.
    cbn [append] in Hp. rewrite Hp.
    destruct (split_from_first key ((EmptyString ++ v) ++ ";") attrs)
      as (more & others & E).
    rewrite E. cbn [nth_error append].
    rewrite append_assoc. cbn [append].
    now rewrite (split_semicolon _ _ _ Hvs).
Qed.

(** *** The extractors *)

Lemma extract_skips key skipped cookies :
  Forall (fun c => includes c key = false) skipped ->
  extract key (skipped ++ cookies) = extract key cookies.
Proof.
  induction 1 as [|c skipped Hc _ IH]; [reflexivity|].
  cbn [app extract]. now rewrite Hc.
Qed.

Lemma extract_value key skipped v tail rest :
  key <> EmptyString ->
  includes key ";" = false ->
  Forall (fun c => includes c key = false) skipped ->
  includes v key = false ->
  includes v ";" = false ->
  tail = EmptyString \/ (exists attrs, tail = String ";" attrs) ->
  extract key (skipped ++ (key ++ v ++ tail) :: rest) = inr (Str v).
Proof.
  intros Hk Hks Hskip Hvk Hvs Htail.
  rewrite (extract_skips _ _ _ Hskip). cbn [extract].
  assert (Hin : includes (key ++ v ++ tail) key = true).
  { apply JSFacts.includes_spec. exists EmptyString, (v ++ tail). reflexivity. }
  now rewrite Hin, (field_after_value _ _ _ Hk Hks Hvk Hvs Htail).
Qed.

(** X17.  Reading a cookie field back.  When the first cookie that contains
    "uid=" is of the form uid=<value>, alone or followed by ";" and
    attributes, and the value contains neither ";" nor "uid=",
    [extractUid] returns the value, whatever cookies come after; the same
    holds of [extractToken] with "token=" and of [extractSessionId] with
    "sessionId=". *)
Theorem extractors_return_cookie_value skipped v tail rest :
  includes v ";" = false ->
  tail = EmptyString \/ (exists attrs, tail = String ";" attrs) ->
  (Forall (fun c => includes c "uid=" = false) skipped ->
   includes v "uid=" = false ->
   extractUid (skipped ++ ("uid=" ++ v ++ tail) :: rest) = inr (Str v)) /\
  (Forall (fun c => includes c "token=" = false) skipped ->
   includes v "token=" = false ->
   extractToken (skipped ++ ("token=" ++ v ++ tail) :: rest) = inr (Str v)) /\
  (Forall (fun c => includes c "sessionId=" = false) skipped ->
   includes v "sessionId=" = false ->
   extractSessionId (skipped ++ ("sessionId=" ++ v ++ tail) :: rest)
   = inr (Str v)).
Proof.
  intros Hvs Htail.
  split; [|split]; intros Hskip Hvk;
    apply extract_value; auto; discriminate.
Qed.

Lemma extract_total key cookies :
  key <> EmptyString ->
  exists v, extract key cookies = inr v /\
            (v = Null <-> Forall (fun c => includes c key = false) cookies).
Proof.
  intros Hk. induction cookies as [|c cookies IH].
  - exists Null. split; [reflexivity|]. split; auto.
  - cbn [extract]. destruct (includes c key) eqn:Hc.
    + unfold field_after, split.
      destruct (split_from_two key EmptyString c Hk Hc)
        as (first & second & others & E).
      rewrite E. cbn [nth_error].
      destruct (split_from_nonempty ";" 0 EmptyString second)
        as (f & o & E'). rewrite E'. cbn [nth_error].
      exists (Str f). split; [reflexivity|]. split; [discriminate|].
      intros H. inversion H. congruence.
    + destruct IH as (v & Hv & Hiff). exists v. split; [exact Hv|].
      rewrite Hiff. split.
      * intros H. now constructor.
      * intros H. now inversion H.
Qed.

Lemma extract_shape key cookies w :
  key <> EmptyString ->
  extract key cookies = inr w -> w = Null \/ exists text, w = Str text.
Proof.
  intros Hk. induction cookies as [|c cs IH]; cbn [extract].
  - intros H. injection H as <-. now left.
  - destruct (includes c key) eqn:Hc; [|exact IH].
    unfold field_after, split.
    destruct (split_from_two key EmptyString c Hk Hc)
      as (first & second & others & E).
    rewrite E. cbn [nth_error].
    destruct (split_from_nonempty ";" 0 EmptyString second)
      as (f & o & E'). rewrite E'. cbn [nth_error].
    intros H. injection H as <-. right. eauto.
Qed.

(** X18.  The extractors never throw: whatever the cookies, they return a
    string or null, and they return null exactly when no cookie contains
    the key ("uid=", "token=", "sessionId="). *)
Theorem extractors_never_throw cookies :
  exists uid token sessionId,
    extractUid cookies = inr uid /\
    extractToken cookies = inr token /\
    extractSessionId cookies = inr sessionId /\
    (uid = Null <-> Forall (fun c => includes c "uid=" = false) cookies) /\
    (token = Null <-> Forall (fun c => includes c "token=" = false) cookies) /\
    (sessionId = Null
     <-> Forall (fun c => includes c "sessionId=" = false) cookies) /\
    (forall v, In v [uid; token; sessionId] ->
               v = Null \/ exists text, v = Str text).
Proof.
  destruct (extract_total "uid=" cookies) as (u & Hu & Hun); [discriminate|].
  destruct (extract_total "token=" cookies) as (t & Ht & Htn); [discriminate|].
  destruct (extract_total "sessionId=" cookies) as (i & Hi & Hin);
    [discriminate|].
  exists u, t, i. repeat (split; [assumption|]).
  intros v [<-|[<-|[<-|[]]]]; eapply extract_shape; eauto; discriminate.
Qed.

(** *** [fetchDevices] and [getCredentials] *)

Lemma first_piece nv tail :
  includes nv ";" = false ->
  tail = EmptyString \/ (exists attrs, tail = String ";" attrs) ->
  nth_error (split (nv ++ tail) ";") 0 = Some nv.
Proof.
  intros Hnv [-> | (attrs & ->)]; unfold split.
  - now rewrite append_nil_r, (split_from_no_match _ _ _ Hnv).
  - now rewrite (split_semicolon _ _ _ Hnv).
Qed.

(** X19.  The device listing request carries, as its Cookie header, only
    the name=value part of each login cookie (what precedes the first ";"),
    joined by "; ", and the uid it was given as its uid query parameter;
    it is a POST to /admin/amos/searchForWeb.do. *)
Theorem fetchDevices_sends_names_and_values host parts uid net :
  Forall name_value_first parts ->
  let rq := fst (fetchDevices host (map (fun p => fst p ++ snd p) parts)
                              uid net) in
  own "Cookie" (listing_headers rq)
  = Some (String.concat "; " (map fst parts)) /\
  own "uid" (listing_query rq) = Some uid /\
  listing_method rq = "POST" /\
  listing_path rq = "/admin/amos/searchForWeb.do".
Proof.
  intros Hparts rq. subst rq. cbn. repeat split.
  unfold cookieStr. do 2 f_equal. rewrite map_map.
  induction Hparts as [|[nv tail] parts [Hnv Htail] _ IH]; [reflexivity|].
  cbn [map fst snd] in *. now rewrite (first_piece _ _ Hnv Htail), IH.
Qed.

Lemma login_logged_in host username password net cookies :
  logged_in net cookies ->
  login host username password net
  = (login_request host username password, Resolved (Some cookies)).
Proof.
  intros (res & -> & Hs & Hc). unfold login, login_response.
  now rewrite (status_in_range _ Hs), Hc.
Qed.

(** X20.  [getCredentials] asks for the device listing only after a login
    that produced cookies with a non-empty uid.  A login without cookies
    fails with "Login failed: No cookies received", and cookies without a
    uid, or with an empty one, fail with "Login success but UID not found
    in cookies"; in both cases no listing request is sent. *)
Theorem getCredentials_needs_uid host username password net net' :
  let r := getCredentials host username password net net' in
  (forall rq', snd (fst r) = Some rq' ->
     exists cookies u,
       logged_in net cookies /\
       extractUid cookies = inr (Str u) /\
       u <> EmptyString /\
       rq' = fetchDevices_request host cookies (Str u)) /\
  (snd (login host username password net) = Resolved None ->
   r = (login_request host username password, None,
        Rejected (Error [Lit "Login failed: No cookies received"]))) /\
  (forall cookies,
     logged_in net cookies ->
     extractUid cookies = inr Null \/ extractUid cookies = inr (Str EmptyString) ->
     r = (login_request host username password, None,
          Rejected (Error
            [Lit "Login success but UID not found in cookies"]))).
Proof.
  intros r. subst r. split; [|split].
  - intros rq'. unfold getCredentials.
    destruct net as [res|e|]; cbn [login]; try discriminate.
    unfold login_response.
    destruct ((200 <=? statusCode res) && (statusCode res <? 400)) eqn:Hs;
      [|discriminate].
    destruct (set_cookie res) as [cookies|] eqn:Hc.
    + destruct (extract_total "uid=" cookies) as (u & Hu & _); [discriminate|].
      unfold extractUid. rewrite Hu.
      destruct (extract_shape "uid=" cookies u) as [-> | (text & ->)];
        [discriminate | exact Hu | discriminate |].
      cbn [truthy negb].
      destruct (String.eqb_spec text EmptyString) as [->|Hne];
        cbn [negb]; [discriminate|].
      cbn [fetchDevices fst snd]. intros H. injection H as <-.
      exists cookies, text. repeat split; auto.
      exists res. repeat split; auto.
      * apply andb_true_iff in Hs. destruct Hs as [H1 _].
        now apply Z.leb_le.
      * apply andb_true_iff in Hs. destruct Hs as [_ H2].
        now apply Z.ltb_lt.
    + destruct (includes (data res) MARKER); discriminate.
  - unfold getCredentials.
    destruct (login host username password net) as [rq o] eqn:E.
    cbn [snd]. intros ->.
    assert (rq = login_request host username password).
    { unfold login in E. now injection E as <- _. }
    now subst rq.
  - intros cookies Hl Hu. unfold getCredentials.
    rewrite (login_logged_in _ _ _ _ _ Hl).
    now destruct Hu as [-> | ->].
Qed.

Lemma getCredentials_listed host username password net net' cookies u :
  logged_in net cookies ->
  extractUid cookies = inr (Str u) ->
  u <> EmptyString ->
  getCredentials host username password net net'
  = (login_request host username password,
     Some (fetchDevices_request host cookies (Str u)),
     match snd (fetchDevices host cookies (Str u) net') with
     | Pending => Pending
     | Rejected e => Rejected e
     | Resolved devices => credentials_of cookies (Str u) devices
     end).
Proof.
  intros Hl Hu Hne. unfold getCredentials.
  rewrite (login_logged_in _ _ _ _ _ Hl), Hu. cbn [truthy].
  destruct (String.eqb_spec u EmptyString); [congruence|]. reflexivity.
Qed.

(** X21.  An account without devices is not an error for
    [getCredentials]: after a login with a uid, a listing whose body parses
    but has no data, or an empty data array, makes it resolve with null,
    whatever the HTTP status of the listing; a listing whose body does not
    parse makes it fail with "Failed to parse device list JSON". *)
Theorem getCredentials_without_devices host username password net res
    cookies u :
  logged_in net cookies ->
  extractUid cookies = inr (Str u) ->
  u <> EmptyString ->
  (no_devices res ->
   snd (getCredentials host username password net (Listing res))
   = Resolved Null) /\
  (listing_json res = None ->
   snd (getCredentials host username password net (Listing res))
   = Rejected (Error [Lit "Failed to parse device list JSON"])).
Proof.
  intros Hl Hu Hne.
  rewrite (getCredentials_listed _ _ _ _ _ _ _ Hl Hu Hne).
  cbn [snd fetchDevices]. unfold fetchDevices_response. split.
  - intros (json & -> & [Hj | (data & Hd & [Ht | ->])]).
    + now rewrite Hj.
    + destruct (truthy json); [|reflexivity]. now rewrite Hd, Ht.
    + destruct (truthy json); [|reflexivity]. now rewrite Hd.
  - now intros ->.
Qed.

(** X22.  The credentials [getCredentials] resolves with.  After a login
    with a uid and a listing whose data is an array that starts with a
    device object, it resolves with the nid of that first device, the uid,
    the token and sessionId the extractors find in the login cookies (null
    for one that no cookie carries), and the whole device array; the
    listing request carries the uid. *)
Theorem getCredentials_success host username password net res cookies u
    json device others :
  logged_in net cookies ->
  extractUid cookies = inr (Str u) ->
  u <> EmptyString ->
  listing_json res = Some json ->
  prop json "data" = Some (Arr (Obj device :: others)) ->
  exists token sessionId,
    extractToken cookies = inr token /\
    extractSessionId cookies = inr sessionId /\
    getCredentials host username password net (Listing res)
    = (login_request host username password,
       Some (fetchDevices_request host cookies (Str u)),
       Resolved (Obj [("nid", lookup "nid" device); ("token", token);
                      ("uid", Str u); ("sessionId", sessionId);
                      ("devices", Arr (Obj device :: others))])).
Proof.
  intros Hl Hu Hne Hj Hd.
  destruct (extract_total "token=" cookies) as (t & Ht & _); [discriminate|].
  destruct (extract_total "sessionId=" cookies) as (i & Hi & _);
    [discriminate|].
  exists t, i. split; [exact Ht|]. split; [exact Hi|].
  rewrite (getCredentials_listed _ _ _ _ _ _ _ Hl Hu Hne).
  cbn [snd fetchDevices]. unfold fetchDevices_response. rewrite Hj.
  assert (Htj : truthy json = true).
  { destruct json; cbn in Hd; try discriminate; reflexivity. }
  rewrite Htj, Hd. cbn [truthy]. unfold credentials_of.
  unfold extractToken, extractSessionId in *.
  cbn [truthy negb prop index nth]. rewrite Ht, Hi.
  reflexivity.
Qed.
(** *** The theorems above at a concrete login *)

Lemma login_with_logged_in cookies :
  logged_in (Scenario.login_with cookies) cookies.
Proof.
  eexists. split; [reflexivity|]. split; [cbn; lia | reflexivity].
Qed.

Lemma extractors_return_cookie_value_witness :
  extractUid Scenario.login_cookies = inr (Str "42").
Proof.
  refine (proj1 (extractors_return_cookie_value ["lang=en; Path=/"] "42"
                   "; Path=/; HttpOnly" ["token=tok123; Path=/";
                                         "sessionId=sess9"] eq_refl _)
            _ eq_refl).
  - right. eexists. reflexivity.
  - repeat constructor.
Defined.

Lemma fetchDevices_sends_names_and_values_witness :
  own "Cookie"
    (listing_headers
       (fst (fetchDevices "amos.cn.lbslm.com" Scenario.login_cookies
               (Str "42") NoListing)))
  = Some "lang=en; uid=42; token=tok123; sessionId=sess9".
Proof.
  refine (proj1 (fetchDevices_sends_names_and_values "amos.cn.lbslm.com"
                   [("lang=en", "; Path=/"); ("uid=42", "; Path=/; HttpOnly");
                    ("token=tok123", "; Path=/");
                    ("sessionId=sess9", EmptyString)]
                   (Str "42") NoListing _)).
  repeat (apply Forall_cons;
          [split; [reflexivity|]; cbn [snd];
           first [left; reflexivity | right; eexists; reflexivity]|]).
  apply Forall_nil.
Defined.

Lemma getCredentials_without_devices_witness :
  snd (getCredentials "amos.cn.lbslm.com" "user@example.com" "secret"
         (Scenario.login_with Scenario.login_cookies)
         (Listing Scenario.empty_listing))
  = Resolved Null.
Proof.
  refine (proj1 (getCredentials_without_devices "amos.cn.lbslm.com"
                   "user@example.com" "secret" _ Scenario.empty_listing
                   Scenario.login_cookies "42"
                   (login_with_logged_in _) eq_refl _) _).
  - discriminate.
  - eexists. split; [reflexivity|]. right.
    eexists. split; [reflexivity|]. now right.
Defined.

Lemma getCredentials_success_witness :
  snd (getCredentials "amos.cn.lbslm.com" "user@example.com" "secret"
         (Scenario.login_with Scenario.login_cookies)
         (Listing Scenario.device_listing))
  = Resolved (Obj [("nid", Str "12345"); ("token", Str "tok123");
                   ("uid", Str "42"); ("sessionId", Str "sess9");
                   ("devices", Arr [Scenario.bedroom; Scenario.hallway])]).
Proof.
  assert (Hne : "42" <> EmptyString) by discriminate.
  destruct (getCredentials_success "amos.cn.lbslm.com" "user@example.com"
              "secret" _ Scenario.device_listing Scenario.login_cookies "42"
              _ _ _ (login_with_logged_in _) eq_refl Hne eq_refl eq_refl)
    as (token & sessionId & Ht & Hs & Hc).
  rewrite Hc. cbn [snd].
  injection Ht as <-. injection Hs as <-. reflexivity.
Defined.

End AuthSpec.

(** ** The Session Coordinator *)

Module PlatformSpec.
Import JS Platform.

Lemma nth_error_settle_at h r ps pr :
  nth_error ps h = Some pr -> nth_error (settle_at h r ps) h = Some (Done r).
Proof.
  revert h. induction ps as [|p0 ps IH]; intros [|h]; simpl; try discriminate; auto.
Qed.

Lemma length_settle_at h r ps :
  List.length (settle_at h r ps) = List.length ps.
Proof.
  revert h. induction ps as [|p0 ps IH]; intros [|h]; simpl; auto.
Qed.

Lemma refreshSession_in_flight p h :
  _refreshPromise p = Some h -> refreshSession p = (h, p).
Proof. unfold refreshSession. now intros ->. Qed.

(** From idle, [refreshSession] makes a new promise, puts it in flight and,
    with credentials configured, starts one login. *)
Lemma refreshSession_idle p :
  _refreshPromise p = None ->
  let h := List.length (promises p) in
  let p' := snd (refreshSession p) in
  fst (refreshSession p) = h /\
  (exists pr, in_flight p' h pr /\
     (configured p = true -> pr = AwaitingCredentials)) /\
  logins p' = (if configured p then S (logins p) else logins p) /\
  email p' = email p /\ password p' = password p.
Proof.
  intros Hidle.
  assert (Hnth : forall pr,
           nth_error (promises p ++ [pr]) (List.length (promises p)) = Some pr).
  { intros pr. now rewrite nth_error_app2, Nat.sub_diag by lia. }
  unfold refreshSession, _executeRefresh_start, configured, in_flight.
  rewrite Hidle.
  destruct (truthy (email p)), (truthy (password p)); cbn;
    (split; [reflexivity|]); (split; [|auto]);
    eexists; (split; [split; [reflexivity | split; [apply Hnth |]] |]);
    try discriminate; try reflexivity.
Qed.

(** Completion settles the promise in flight and clears the marker. *)
Lemma complete_in_flight creds p h pr :
  in_flight p h pr -> outcome_of pr creds <> Pending ->
  let p' := complete creds p in
  _refreshPromise p' = None /\
  await h p' = outcome_of pr creds /\
  logins p' = logins p /\
  email p' = email p /\ password p' = password p /\
  List.length (promises p') = List.length (promises p).
Proof.
  intros (Hm & Hn & Hnd) Hout. unfold complete, await. rewrite Hm, Hn.
  destruct pr as [|e|r]; [| |now destruct (Hnd r)];
    destruct (outcome_of _ creds) eqn:E; try congruence; cbn;
    rewrite (nth_error_settle_at _ _ _ _ Hn), length_settle_at; auto 10.
Qed.

(** The invariant holds initially and is kept by both events. *)
Lemma refreshSession_consistent p :
  consistent p -> consistent (snd (refreshSession p)).
Proof.
  intros Hc. destruct (_refreshPromise p) as [h|] eqn:E.
  - now rewrite (refreshSession_in_flight _ _ E).
  - destruct (refreshSession_idle p E) as (Hh & (pr & Hin & _) & _).
    intros h' Hh'. exists pr.
    destruct Hin as (Hm & Hrest). rewrite Hm in Hh'. now injection Hh' as <-.
Qed.

Lemma complete_consistent creds p :
  consistent p -> consistent (complete creds p).
Proof.
  intros Hc. destruct (_refreshPromise p) as [h|] eqn:E.
  - destruct (Hc h E) as [pr Hin].
    destruct (outcome_of pr creds) eqn:Ho.
    + unfold complete. destruct Hin as (Hm & Hn & Hnd).
      rewrite Hm, Hn. destruct pr; try rewrite Ho; exact Hc.
    + destruct (complete_in_flight creds p h pr Hin) as (Hm & _); [congruence|].
      intros h' Hh'. congruence.
    + destruct (complete_in_flight creds p h pr Hin) as (Hm & _); [congruence|].
      intros h' Hh'. congruence.
  - unfold complete. now rewrite E.
Qed.

Lemma resume_settles creds :
  creds <> Pending -> _executeRefresh_resume creds <> Pending.
Proof.
  destruct creds as [|c|e]; cbn; try congruence. intros _.
  destruct (prop c "token"), (prop c "uid"), (prop c "sessionId"); discriminate.
Qed.

Lemma outcome_settles pr creds :
  creds <> Pending -> (forall r, pr <> Done r) -> outcome_of pr creds <> Pending.
Proof.
  intros Hc Hnd. destruct pr as [|e|r]; cbn.
  - now apply resume_settles.
  - discriminate.
  - now destruct (Hnd r).
Qed.

(** C3.  Two [refreshSession()] calls made before the refresh completes,
    whether the first finds the platform idle or a refresh already in
    flight, await the same promise and cause one login in all (one new login
    from idle, none when one is in flight); when the login settles both
    callers receive the same outcome, the in-flight marker is cleared (on
    fulfilment and on rejection alike), and the next [refreshSession()]
    starts a new login on a new promise. *)
Theorem refresh_deduplicated p creds :
  consistent p -> configured p = true -> creds <> Pending ->
  let c1 := refreshSession p in
  let c2 := refreshSession (snd c1) in
  let p2 := snd c2 in
  let p3 := complete creds p2 in
  let c3 := refreshSession p3 in
  fst c1 = fst c2 /\
  _refreshPromise p2 = Some (fst c1) /\
  logins p2 = match _refreshPromise p with
              | None => S (logins p)
              | Some _ => logins p
              end /\
  (exists r,
      r <> Pending /\ await (fst c1) p3 = r /\ await (fst c2) p3 = r /\
      (_refreshPromise p = None -> r = _executeRefresh_resume creds)) /\
  _refreshPromise p3 = None /\
  logins p3 = logins p2 /\
  logins (snd c3) = S (logins p3) /\
  fst c3 <> fst c1 /\
  _refreshPromise (snd c3) = Some (fst c3).
Proof.
  intros Hcons Hconf Hcreds.
  (* the state after the first call has promise [h] in flight *)
  assert (H1 : exists h pr,
             refreshSession p = (h, snd (refreshSession p)) /\
             in_flight (snd (refreshSession p)) h pr /\
             (_refreshPromise p = None -> pr = AwaitingCredentials) /\
             logins (snd (refreshSession p))
             = match _refreshPromise p with
               | None => S (logins p)
               | Some _ => logins p
               end /\
             configured (snd (refreshSession p)) = true).
  { destruct (_refreshPromise p) as [h|] eqn:E.
    - destruct (Hcons h E) as [pr Hin]. exists h, pr.
      rewrite (refreshSession_in_flight _ _ E). cbn [fst snd].
      split; [reflexivity|]. split; [exact Hin|].
      split; [discriminate|]. split; [reflexivity | exact Hconf].
    - destruct (refreshSession_idle p E) as (Hh & (pr & Hin & Hpr) & Hl & He & Hp).
      exists (List.length (promises p)), pr.
      rewrite Hconf in Hl.
      split; [rewrite <- Hh; now destruct (refreshSession p)|].
      split; [exact Hin|]. split; [auto|]. split; [exact Hl|].
      unfold configured in *. now rewrite He, Hp. }
  destruct H1 as (h & pr & Hc1 & Hin & Hpr & Hl & Hconf1).
  intros c1 c2 p2 p3 c3. subst c1 c2 p2 p3 c3.
  rewrite Hc1. cbn [fst snd].
  set (p1 := snd (refreshSession p)) in *.
  assert (Hm1 : _refreshPromise p1 = Some h) by apply Hin.
  rewrite (refreshSession_in_flight _ _ Hm1). cbn [fst snd].
  assert (Hout : outcome_of pr creds <> Pending).
  { apply outcome_settles; [exact Hcreds | apply Hin]. }
  destruct (complete_in_flight creds p1 h pr Hin Hout)
    as (Hm3 & Haw & Hl3 & He3 & Hp3 & Hlen3).
  destruct (refreshSession_idle _ Hm3) as (Hh4 & (pr4 & Hin4 & _) & Hl4 & _).
  assert (Hconf3 : configured (complete creds p1) = true).
  { unfold configured in *. now rewrite He3, Hp3. }
  rewrite Hconf3 in Hl4.
  repeat split; auto.
  - exists (outcome_of pr creds). repeat split; auto.
    intros Hidle. now rewrite (Hpr Hidle).
  - rewrite Hh4, Hlen3. destruct Hin as (_ & Hn & _).
    assert (h < List.length (promises p1))%nat
      by (apply nth_error_Some; congruence).
    lia.
  - rewrite Hh4. apply Hin4.
Qed.

Lemma refresh_deduplicated_witness :
  let c1 := refreshSession Scenario.idle_platform in
  let c2 := refreshSession (snd c1) in
  let p3 := complete (Resolved Scenario.account_credentials) (snd c2) in
  fst c1 = fst c2 /\
  logins (snd c2) = 1%nat /\
  await (fst c1) p3
  = Resolved (Obj [("token", Str "new"); ("uid", Str "1");
                   ("sessionId", Str "2")]) /\
  _refreshPromise p3 = None.
Proof.
  assert (Hc : consistent Scenario.idle_platform) by (intros h H; discriminate H).
  assert (Hf : configured Scenario.idle_platform = true) by reflexivity.
  assert (Hs : Resolved Scenario.account_credentials <> Pending) by discriminate.
  pose proof (refresh_deduplicated Scenario.idle_platform (Resolved Scenario.account_credentials)
                Hc Hf Hs) as H.
  cbv zeta in H.
  destruct H as (H1 & _ & H2 & (r & _ & Ha & _ & Hr) & H3 & _).
  split; [exact H1|]. split; [exact H2|]. split; [|exact H3].
  rewrite Ha. exact (Hr eq_refl).
Defined.

Import Auth AuthSpec.
Local Open Scope list_scope.

(** *** Runs of the Session Coordinator *)

Lemma settle_at_last before pr r :
  settle_at (List.length before) r (before ++ [pr]) = before ++ [Done r].
Proof.
  induction before as [|x before IH]; cbn; [reflexivity | now rewrite IH].
Qed.

Lemma step_orderly p n e :
  orderly p n ->
  orderly (step p e) (match e with Call => n | Settle _ => S n end).
Proof.
  intros [Hl H]. destruct e as [|creds]; cbn [step].
  - unfold refreshSession.
    destruct (_refreshPromise p) as [h|] eqn:Hm.
    + cbn [snd]. split; [exact Hl|]. now rewrite Hm.
    + destruct H as [Hall Hn]. unfold _executeRefresh_start.
      destruct (negb (truthy (email p)) || negb (truthy (password p)));
        cbn [snd]; (split; [cbn; rewrite length_app; cbn; lia|]);
        cbn [_refreshPromise promises];
        eexists _, _; repeat split; auto.
  - unfold complete. destruct (_refreshPromise p) as [h|] eqn:Hm.
    + destruct H as (before & pr & Hp & -> & Hpr & Hall & Hn).
      rewrite Hp, nth_error_app2, Nat.sub_diag by lia. cbn [nth_error].
      assert (Hkeep : orderly p (S n)).
      { split; [exact Hl|]. rewrite Hm. exists before, pr. auto 10. }
      destruct pr as [|e|r]; try discriminate Hpr;
        destruct (outcome_of _ creds) eqn:Ho; try exact Hkeep;
        (split; [cbn [logins promises]; rewrite settle_at_last;
                 rewrite Hp in Hl; rewrite length_app in *; exact Hl|]);
        cbn [_refreshPromise promises];
        rewrite settle_at_last, forallb_app, Hall, length_app; cbn;
        (split; [reflexivity | lia]).
    + split; [exact Hl|]. rewrite Hm. destruct H. split; [assumption | lia].
Qed.

Lemma run_orderly events p n :
  orderly p n -> orderly (run events p) (n + settles events).
Proof.
  revert p n. induction events as [|e events IH]; intros p n H.
  - cbn. now rewrite Nat.add_0_r.
  - cbn [run fold_left]. apply (step_orderly _ _ e) in H.
    apply IH in H. unfold run in H.
    destruct e; cbn [settles]; [exact H|].
    now rewrite Nat.add_succ_r.
Qed.

(** X23.  However the calls of [refreshSession()] and the completions of
    logins interleave, starting from a new platform: at most one promise is
    unsettled at any time, and it is the one [_refreshPromise] holds; and
    the logins started never exceed the logins that have settled by more
    than one, so a burst of refresh calls costs one login. *)
Theorem refresh_runs_are_orderly events email password :
  let p := run events (fresh email password) in
  (forall h pr, nth_error (promises p) h = Some pr -> settled pr = false ->
                _refreshPromise p = Some h) /\
  (_refreshPromise p = None -> forallb settled (promises p) = true) /\
  (logins p <= S (settles events))%nat.
Proof.
  intros p.
  assert (H0 : orderly (fresh email password) 0).
  { split; cbn; [lia | auto]. }
  apply (run_orderly events) in H0. fold p in H0. cbn [Nat.add] in H0.
  destruct H0 as [Hl H]. split; [|split].
  - intros h pr Hn Hs. destruct (_refreshPromise p) as [h'|].
    + destruct H as (before & pr' & Hp & -> & Hpr & Hall & _).
      rewrite Hp in Hn.
      destruct (Nat.lt_ge_cases h (List.length before)) as [Hlt|Hge].
      * rewrite nth_error_app1 in Hn by exact Hlt.
        rewrite forallb_forall in Hall.
        apply nth_error_In, Hall in Hn. congruence.
      * assert (h < List.length (before ++ [pr']))%nat
          by (apply nth_error_Some; congruence).
        rewrite length_app in *. cbn in *. f_equal. lia.
    + destruct H as [Hall _]. rewrite forallb_forall in Hall.
      apply nth_error_In, Hall in Hn. congruence.
  - intros Hm. rewrite Hm in H. apply H.
  - destruct (_refreshPromise p).
    + destruct H as (before & pr & Hp & _ & _ & _ & Hn).
      rewrite Hp, length_app in Hl. cbn in Hl. lia.
    + destruct H as [_ Hn]. lia.
Qed.

(** X24.  A session refresh on top of the login client.  Once the login has
    given cookies with a uid: for an account without devices
    [getCredentials] resolves with null, so [_executeRefresh] fails with a
    TypeError on [creds.token] rather than with a message of its own; and
    for a listing that starts with a device it resolves with exactly the
    token, uid and sessionId of the login cookies, without the nid and the
    device list [getCredentials] adds. *)
Theorem executeRefresh_after_login host username password net res cookies u :
  logged_in net cookies ->
  extractUid cookies = inr (Str u) ->
  u <> EmptyString ->
  let creds := snd (getCredentials host username password net (Listing res)) in
  (no_devices res ->
   _executeRefresh_resume creds = Rejected (TypeError "token")) /\
  (forall json device others,
     listing_json res = Some json ->
     prop json "data" = Some (Arr (Obj device :: others)) ->
     exists token sessionId,
       extractToken cookies = inr token /\
       extractSessionId cookies = inr sessionId /\
       _executeRefresh_resume creds
       = Resolved (Obj [("token", token); ("uid", Str u);
                        ("sessionId", sessionId)])).
Proof.
  intros Hl Hu Hne creds. subst creds.
  rewrite (getCredentials_listed _ _ _ _ _ _ _ Hl Hu Hne).
  cbn [snd fetchDevices]. unfold fetchDevices_response. split.
  - intros (json & -> & [Hj | (data & Hd & [Ht | ->])]).
    + now rewrite Hj.
    + destruct (truthy json); [|reflexivity]. now rewrite Hd, Ht.
    + destruct (truthy json); [|reflexivity]. now rewrite Hd.
  - intros json device others Hj Hd.
    destruct (extract_total "token=" cookies) as (t & Ht & _);
      [discriminate|].
    destruct (extract_total "sessionId=" cookies) as (i & Hi & _);
      [discriminate|].
    exists t, i. split; [exact Ht|]. split; [exact Hi|].
    rewrite Hj.
    assert (Htj : truthy json = true).
    { destruct json; cbn in Hd; try discriminate; reflexivity. }
    rewrite Htj, Hd. cbn [truthy]. unfold credentials_of.
    unfold extractToken, extractSessionId in *.
    cbn [truthy negb prop index nth]. rewrite Ht, Hi.
    reflexivity.
Qed.

(** X25.  A refresh without configured credentials.  On an idle platform
    whose email or password is missing, [refreshSession()] starts no login;
    the promise it returns rejects with "Cannot refresh session: No
    Email/Password configured." whatever the login client would have
    answered, and [_refreshPromise] is cleared again, so that the next call
    starts over. *)
Theorem refresh_without_configuration p creds :
  _refreshPromise p = None ->
  configured p = false ->
  let c := refreshSession p in
  let p' := complete creds (snd c) in
  logins (snd c) = logins p /\
  _refreshPromise (snd c) = Some (fst c) /\
  await (fst c) p' = Rejected NOT_CONFIGURED /\
  _refreshPromise p' = None /\
  logins p' = logins p.
Proof.
  intros Hidle Hc c p'. subst p' c.
  unfold refreshSession, _executeRefresh_start. rewrite Hidle.
  unfold configured in Hc.
  assert (Hn : negb (truthy (email p)) || negb (truthy (password p)) = true).
  { destruct (truthy (email p)), (truthy (password p));
      try reflexivity; discriminate. }
  rewrite Hn. cbn [fst snd logins _refreshPromise].
  unfold complete. cbn [_refreshPromise promises].
  rewrite nth_error_app2, Nat.sub_diag by lia.
  cbn [nth_error outcome_of email password logins _refreshPromise].
  unfold await. cbn [promises].
  rewrite settle_at_last, nth_error_app2, Nat.sub_diag by lia.
  cbn [nth_error]. repeat split; reflexivity.
Qed.
Lemma executeRefresh_after_login_witness :
  _executeRefresh_resume
    (snd (getCredentials "amos.cn.lbslm.com" "user@example.com" "secret"
            (Scenario.login_with Scenario.login_cookies)
            (Listing Scenario.empty_listing)))
  = Rejected (TypeError "token") /\
  _executeRefresh_resume
    (snd (getCredentials "amos.cn.lbslm.com" "user@example.com" "secret"
            (Scenario.login_with Scenario.login_cookies)
            (Listing Scenario.device_listing)))
  = Resolved Scenario.session_credentials.
Proof.
  assert (Hne : "42" <> EmptyString) by discriminate.
  split.
  - refine (proj1 (executeRefresh_after_login "amos.cn.lbslm.com"
                     "user@example.com" "secret" _ Scenario.empty_listing
                     Scenario.login_cookies "42"
                     (login_with_logged_in _) eq_refl Hne) _).
    eexists. split; [reflexivity|]. right.
    eexists. split; [reflexivity|]. now right.
  - destruct (proj2 (executeRefresh_after_login "amos.cn.lbslm.com"
                       "user@example.com" "secret" _ Scenario.device_listing
                       Scenario.login_cookies "42"
                       (login_with_logged_in _) eq_refl Hne)
                _ _ _ eq_refl eq_refl)
      as (token & sessionId & Ht & Hs & Hr).
    rewrite Hr. injection Ht as <-. injection Hs as <-. reflexivity.
Defined.

Lemma refresh_without_configuration_witness :
  let c := refreshSession Scenario.unconfigured_platform in
  let p' := complete Pending (snd c) in
  await (fst c) p' = Rejected NOT_CONFIGURED /\ logins p' = 0%nat.
Proof.
  destruct (refresh_without_configuration Scenario.unconfigured_platform
              Pending eq_refl eq_refl) as (_ & _ & Ha & _ & Hl).
  split; [exact Ha | exact Hl].
Defined.

End PlatformSpec.

(** ** The Device API Caller and the Device State Poller *)

Local Open Scope list_scope.

Module AccessorySpec.
Import JS Accessory.

Ltac unfold_M :=
  unfold _callApi_body, on_end, refresh_credentials, bind, ret, throw, pending,
    try_catch, attempt, promise, read, JSON_parse, get_this, Date_now,
    http_request, platform_refreshSession, set_token, set_uid, set_sessionId,
    with_this, with_world, with_trace in *.

(** Case analysis on the innermost scrutinee of a stuck match. *)
Ltac split_match :=
  match goal with
  | |- context [match ?x with _ => _ end] =>
      lazymatch x with
      | context [match _ with _ => _ end] => fail
      | _ => destruct x eqn:?
      end
  end.

Ltac crunch := repeat (cbn -[options classify]; try split_match).

(** With no retry left the handler never calls [this._callApi]. *)
Lemma body_last_attempt recur recur' path params n n' s :
  _callApi_body recur path params (S n) s
  = _callApi_body recur' path params (S n') s.
Proof.
  destruct s as [d [net ses clk tk] [ex rf tm up]].
  unfold_M. crunch; reflexivity.
Qed.

(** The handler only calls [this._callApi] with [retryCount + 1]. *)
Lemma body_ext recur recur' path params rc s :
  (forall p ps s0, recur p ps (rc + 1)%nat s0 = recur' p ps (rc + 1)%nat s0) ->
  _callApi_body recur path params rc s = _callApi_body recur' path params rc s.
Proof.
  intros Hext. destruct s as [d [net ses clk tk] [ex rf tm up]].
  unfold_M. crunch; try reflexivity; try congruence.
  all: rewrite Hext in *; congruence.
Qed.

(** Two unfoldings are enough: [_callApi] satisfies its own definition at
    every [retryCount]. *)
Lemma callApi_unfold path params rc s :
  _callApi path params rc s = _callApi_body _callApi path params rc s.
Proof.
  unfold _callApi. cbn [_callApi_fuel].
  apply body_ext. intros p ps s0.
  rewrite Nat.add_1_r. apply body_last_attempt.
Qed.

Lemma sent_this path params s : this (sent path params s) = this s.
Proof. reflexivity. Qed.

Lemma sent_exchanges path params s :
  exchanges (trace (sent path params s))
  = exchanges (trace s) ++ [(request_of path params s, delivered s)].
Proof. unfold sent, delivered. unfold_M. cbn. now destruct (network (world s)). Qed.

Lemma is_string_eq v a : is_string v a = true -> v = Str a.
Proof.
  destruct v; cbn; try discriminate. intros H.
  now apply String.eqb_eq in H as ->.
Qed.

Lemma success_not_auth_failure st :
  is_string st "200" = true ->
  is_string st "AuthenticationException" || is_string st "401" = false.
Proof. intros H. now rewrite (is_string_eq _ _ H). Qed.

Ltac finish :=
  intros; cbn in *;
  repeat match goal with
         | H : Response _ = Response _ |- _ => injection H as H; subst
         | H : Resolved _ = Resolved _ |- _ => injection H as H; subst
         | H : Some _ = Some _ |- _ => injection H as H; subst
         end;
  unfold auth_failure, success, status_of in *;
  repeat match goal with
         | H : ?x = _ |- context [?x] => rewrite H
         | H : ?x = _, H' : context [?x] |- _ => rewrite H in H'
         end;
  cbn in *;
  repeat match goal with
         | H : is_string ?st "200" = true, H' : context [is_string ?st _ || _]
           |- _ => rewrite (success_not_auth_failure st H) in H'
         end;
  try congruence; eauto.

(** With no retry left, a call is one exchange, and its outcome is decided
    by the reply alone. *)
Lemma callApi_last_attempt path params n s :
  exists o,
    _callApi path params (S n) s = (o, sent path params s) /\
    (forall res, delivered s = Response res -> auth_failure res = true ->
       o = Rejected AUTH_EXHAUSTED) /\
    (forall res, delivered s = Response res -> success res = true ->
       exists j, json res = Some j /\ o = Resolved j) /\
    (forall j, o = Resolved j ->
       exists res, delivered s = Response res /\ success res = true /\
                   json res = Some j).
Proof.
  rewrite callApi_unfold.
  destruct s as [d [net ses clk tk] [ex rf tm up]].
  unfold sent, delivered. unfold_M. unfold classify. crunch.
  all: eexists; (split; [reflexivity|]); repeat split; finish.
  all: eexists; repeat split; finish.
Qed.

(** A first reply that is not an authentication failure is handled as if
    no retry were left. *)
Lemma callApi_first_attempt_final path params s :
  (forall res, delivered s = Response res -> auth_failure res = false) ->
  _callApi path params 0 s = _callApi path params 1 s.
Proof.
  intros Hna. rewrite !callApi_unfold.
  destruct s as [d [net ses clk tk] [ex rf tm up]].
  destruct net as [|[res| |] net]; try reflexivity.
  specialize (Hna res eq_refl). unfold auth_failure, status_of in Hna.
  unfold_M. crunch; try reflexivity; finish.
Qed.

(** A first reply that is an authentication failure makes the call refresh
    the credentials and, when that succeeds, call itself once more. *)
Lemma callApi_first_attempt_retry path params s res :
  delivered s = Response res -> auth_failure res = true ->
  _callApi path params 0 s
  = match refresh_credentials (sent path params s) with
    | (Resolved _, s2) => _callApi path params 1 s2
    | (Rejected e, s2) => (Rejected e, s2)
    | (Pending, s2) => (Pending, s2)
    end.
Proof.
  intros Hd Ha. rewrite callApi_unfold.
  destruct s as [d [net ses clk tk] [ex rf tm up]].
  destruct net as [|[res'| |] net]; try discriminate Hd.
  injection Hd as ->. unfold auth_failure, status_of in Ha.
  unfold sent. unfold_M. unfold classify.
  repeat (cbn -[options _callApi orb]; try split_match);
    try reflexivity; finish.
Qed.

(** What [refresh_credentials] does: one refresh call; on success the three
    cached credentials are those of the refresh result. *)
Lemma refresh_credentials_run s :
  let r := refresh_credentials s in
  refreshes (trace (snd r)) = S (refreshes (trace s)) /\
  exchanges (trace (snd r)) = exchanges (trace s) /\
  timers (trace (snd r)) = timers (trace s) /\
  updates (trace (snd r)) = updates (trace s) /\
  network (world (snd r)) = network (world s) /\
  clock (world (snd r)) = clock (world s) /\
  ticks (world (snd r)) = ticks (world s) /\
  nid (this (snd r)) = nid (this s) /\
  username (this (snd r)) = username (this s) /\
  appid (this (snd r)) = appid (this s) /\
  isOn (this (snd r)) = isOn (this s) /\
  hostname (this (snd r)) = hostname (this s) /\
  basePath (this (snd r)) = basePath (this s) /\
  headers (this (snd r)) = headers (this s) /\
  oilLevel (this (snd r)) = oilLevel (this s) /\
  timerCache (this (snd r)) = timerCache (this s) /\
  (fst r = Resolved tt ->
   exists creds later t u sid,
     session (world s) = Resolved creds :: later /\
     prop creds "token" = Some t /\
     prop creds "uid" = Some u /\
     prop creds "sessionId" = Some sid /\
     token (this (snd r)) = t /\
     uid (this (snd r)) = u /\
     sessionId (this (snd r)) = sid).
Proof.
  destruct s as [d [net ses clk tk] [ex rf tm up]].
  unfold_M. crunch; repeat split; try discriminate.
  intros _. do 5 eexists. repeat split; eauto.
Qed.

Lemma callApi_course path params rc s :
  course path params s (_callApi path params rc s).
Proof.
  destruct rc as [|n].
  - destruct (delivered s) as [res| |] eqn:Hd.
    + destruct (auth_failure res) eqn:Ha.
      * rewrite (callApi_first_attempt_retry _ _ _ _ Hd Ha).
        destruct (refresh_credentials (sent path params s))
          as [[|[]|e] s2] eqn:Hr.
        -- eapply RefreshFailed; eauto; rewrite ?Hr; cbn; congruence.
        -- destruct (callApi_last_attempt path params 0 s2) as (o & Ho & _).
           eapply Retried; eauto. now rewrite Ho.
        -- eapply RefreshFailed; eauto; rewrite ?Hr; cbn; congruence.
      * rewrite callApi_first_attempt_final.
        -- destruct (callApi_last_attempt path params 0 s) as (o & Ho & _).
           apply Single; [reflexivity | now rewrite Ho].
        -- intros res' Hd'. congruence.
    + rewrite callApi_first_attempt_final by (intros res' Hd'; congruence).
      destruct (callApi_last_attempt path params 0 s) as (o & Ho & _).
      apply Single; [reflexivity | now rewrite Ho].
    + rewrite callApi_first_attempt_final by (intros res' Hd'; congruence).
      destruct (callApi_last_attempt path params 0 s) as (o & Ho & _).
      apply Single; [reflexivity | now rewrite Ho].
  - destruct (callApi_last_attempt path params n s) as (o & Ho & _).
    destruct (callApi_last_attempt path params 0 s) as (o' & Ho' & _).
    apply Single; [| now rewrite Ho].
    unfold _callApi. cbn [_callApi_fuel]. apply body_last_attempt.
Qed.

(** The exchanges of a call: the first request is the one built from the
    state at the call, and at most one more follows. *)
Lemma callApi_exchanges path params rc s :
  let r := _callApi path params rc s in
  (exchanges (trace (snd r))
   = exchanges (trace s) ++ [(request_of path params s, delivered s)] /\
   (refreshes (trace (snd r)) <= S (refreshes (trace s)))%nat) \/
  (exists res s2,
      delivered s = Response res /\ auth_failure res = true /\
      refresh_credentials (sent path params s) = (Resolved tt, s2) /\
      r = _callApi path params 1 s2 /\
      snd r = sent path params s2 /\
      exchanges (trace (snd r))
      = exchanges (trace s)
        ++ [(request_of path params s, delivered s);
            (request_of path params s2, delivered s2)] /\
      refreshes (trace (snd r)) = S (refreshes (trace s))).
Proof.
  intros r. subst r.
  destruct (callApi_course path params rc s) as [Hr Hs|res Hd Ha Hs Hf Hn|res s2 Hd Ha Hr Hc Hs].
  - left. rewrite Hs, sent_exchanges. split; [reflexivity|].
    cbn. lia.
  - left. rewrite Hs.
    destruct (refresh_credentials_run (sent path params s))
      as (Hrf & Hex & _).
    rewrite Hex, Hrf, sent_exchanges. split; [reflexivity|]. cbn. lia.
  - right. exists res, s2. repeat split; auto.
    + rewrite Hs, sent_exchanges.
      destruct (refresh_credentials_run (sent path params s))
        as (_ & Hex & _).
      rewrite Hr in Hex. cbn [snd] in Hex.
      rewrite Hex, sent_exchanges, <- app_assoc. reflexivity.
    + rewrite Hs.
      destruct (refresh_credentials_run (sent path params s))
        as (Hrf & _).
      rewrite Hr in Hrf. cbn [snd] in Hrf. exact Hrf.
Qed.

(** A refresh that fulfils with anything but [null] or [undefined]
    succeeds. *)
Lemma refresh_credentials_fulfilled s creds later t :
  session (world s) = Resolved creds :: later ->
  prop creds "token" = Some t ->
  fst (refresh_credentials s) = Resolved tt.
Proof.
  intros Hs Ht. destruct s as [d [net ses clk tk] [ex rf tm up]].
  cbn in Hs. subst ses. unfold_M. cbn.
  destruct creds; try discriminate Ht; reflexivity.
Qed.

(** The retry does happen: when the network answers an authentication
    failure and then a success, and the refresh fulfils with a credentials
    object, the call resolves with the second body and leaves the rest of
    the network script unread. *)
Lemma callApi_retry_resolves path params s rs1 rs2 later creds ses t j :
  network (world s) = Response rs1 :: Response rs2 :: later ->
  session (world s) = Resolved creds :: ses ->
  prop creds "token" = Some t ->
  auth_failure rs1 = true ->
  success rs2 = true ->
  json rs2 = Some j ->
  fst (_callApi path params 0 s) = Resolved j /\
  network (world (snd (_callApi path params 0 s))) = later.
Proof.
  intros Hn Hs Ht Ha1 Hs2 Hj.
  assert (Hd : delivered s = Response rs1) by (unfold delivered; now rewrite Hn).
  rewrite (callApi_first_attempt_retry _ _ _ _ Hd Ha1).
  pose proof (refresh_credentials_fulfilled (sent path params s) creds ses t
                Hs Ht) as Hr.
  destruct (refresh_credentials_run (sent path params s))
    as (_ & _ & _ & _ & Hnet & _).
  destruct (refresh_credentials (sent path params s)) as [o s2].
  cbn [fst snd] in Hr, Hnet. subst o.
  assert (Hn2 : network (world s2) = Response rs2 :: later).
  { rewrite Hnet. cbn. now rewrite Hn. }
  destruct (callApi_last_attempt path params 0 s2) as (o & Ho & _ & Hok & _).
  rewrite Ho. cbn [fst snd].
  destruct (Hok rs2) as (j' & Hj' & ->); [unfold delivered; now rewrite Hn2 | exact Hs2 |].
  split; [congruence|]. cbn. now rewrite Hn2.
Qed.

Lemma two_exchanges {A} (ex : list A) a b c d rest :
  ex ++ [a; b] = ex ++ c :: d :: rest -> a = c /\ b = d /\ rest = [].
Proof.
  intros H. apply app_inv_head in H. now injection H as -> -> <-.
Qed.

Lemma one_exchange {A} (ex : list A) a c d rest :
  ex ++ [a] = ex ++ c :: d :: rest -> False.
Proof.
  intros H. apply app_inv_head in H. discriminate H.
Qed.



(** C2.  When two consecutive responses of a call are both authentication
    failures, the call is rejected with "Authentication failed after retry"
    and no third request is made; whatever the replies, a call makes at most
    two requests and calls refreshSession at most once. *)
Theorem callApi_second_auth_failure_is_final path params s rq1 rs1 rq2 rs2
    rest :
  let r := _callApi path params 0 s in
  exchanges (trace (snd r))
  = exchanges (trace s) ++ (rq1, Response rs1) :: (rq2, Response rs2) :: rest ->
  auth_failure rs1 = true ->
  auth_failure rs2 = true ->
  fst r = Rejected AUTH_EXHAUSTED /\
  rest = [] /\
  forall path' params' rc s',
    let r' := _callApi path' params' rc s' in
    (List.length (exchanges (trace (snd r')))
     <= List.length (exchanges (trace s')) + 2)%nat /\
    (refreshes (trace (snd r')) <= refreshes (trace s') + 1)%nat.
Proof.
  intros r Hex Ha1 Ha2. subst r. split; [|split].
  - destruct (callApi_exchanges path params 0 s)
      as [[Hone _]|(res & s2 & Hd & Ha & Hr & Hc & Hs & Htwo & Hrf)].
    + rewrite Hone in Hex. now apply one_exchange in Hex.
    + rewrite Htwo in Hex. apply two_exchanges in Hex.
      destruct Hex as (H1 & H2 & ->). injection H2 as <- Hd2.
      destruct (callApi_last_attempt path params 0 s2) as (o & Ho & Hno & _).
      rewrite Hc, Ho. cbn [fst]. eauto.
  - destruct (callApi_exchanges path params 0 s)
      as [[Hone _]|(res & s2 & Hd & Ha & Hr & Hc & Hs & Htwo & Hrf)].
    + rewrite Hone in Hex. now apply one_exchange in Hex.
    + rewrite Htwo in Hex. now apply two_exchanges in Hex.
  - intros path' params' rc s' r'. subst r'.
    destruct (callApi_exchanges path' params' rc s')
      as [[Hone Hrf]|(res & s2 & Hd & Ha & Hr & Hc & Hs & Htwo & Hrf)].
    + rewrite Hone, length_app. cbn [List.length]. lia.
    + rewrite Htwo, length_app, Hrf. cbn [List.length]. lia.
Qed.

Lemma callApi_second_auth_failure_is_final_witness :
  let s := Scenario.system
             [Scenario.auth_exception; Scenario.auth_exception;
              Scenario.status_200]
             [Resolved Scenario.new_credentials] in
  let r := _callApi "/openFragrance.do" [] 0 s in
  fst r = Rejected AUTH_EXHAUSTED /\
  List.length (exchanges (trace (snd r))) = 2%nat /\
  network (world (snd r)) = [Scenario.status_200].
Proof.
  cbv zeta. split; [|split; reflexivity].
  exact (proj1 (callApi_second_auth_failure_is_final "/openFragrance.do" []
           (Scenario.system
              [Scenario.auth_exception; Scenario.auth_exception;
               Scenario.status_200]
              [Resolved Scenario.new_credentials])
           _ _ _ _ [] eq_refl eq_refl eq_refl)).
Defined.

Lemma preserved_refl s : preserved s s.
Proof. repeat split. Qed.

Lemma preserved_trans sa sb sc :
  preserved sa sb -> preserved sb sc -> preserved sa sc.
Proof.
  unfold preserved. intros H1 H2.
  repeat match goal with H : _ /\ _ |- _ => destruct H end.
  repeat split; congruence.
Qed.

Lemma sent_preserved path params s : preserved s (sent path params s).
Proof. repeat split. Qed.

Lemma refresh_credentials_preserved s :
  preserved s (snd (refresh_credentials s)).
Proof.
  pose proof (refresh_credentials_run s) as H. cbv zeta in H.
  repeat match goal with H : _ /\ _ |- _ => destruct H end.
  repeat split; assumption.
Qed.

(** [_callApi] touches nothing but the credentials, the exchanges and the
    refresh count. *)
Lemma callApi_preserved path params rc s :
  preserved s (snd (_callApi path params rc s)).
Proof.
  destruct (callApi_course path params rc s)
    as [Hr Hs|res Hd Ha Hs Hf Hn|res s2 Hd Ha Hr Hc Hs]; rewrite Hs.
  - apply sent_preserved.
  - apply preserved_trans with (sb := sent path params s).
    + apply sent_preserved.
    + apply refresh_credentials_preserved.
  - apply preserved_trans with (sb := sent path params s).
    + apply sent_preserved.
    + apply preserved_trans with (sb := s2).
      * pose proof (refresh_credentials_preserved (sent path params s)) as H.
        rewrite Hr in H. exact H.
      * apply sent_preserved.
Qed.

(** A call resolves only with a body whose status is the string 200, hence
    with an object. *)
Lemma callApi_resolved path params rc s j :
  fst (_callApi path params rc s) = Resolved j ->
  exists fields, j = Obj fields /\ lookup "status" fields = Str "200".
Proof.
  assert (Hlast : forall s0, fst (_callApi path params 1 s0) = Resolved j ->
            exists fields, j = Obj fields /\ lookup "status" fields = Str "200").
  { intros s0 H0.
    destruct (callApi_last_attempt path params 0 s0) as (o & Ho & _ & _ & Hres).
    rewrite Ho in H0. cbn [fst] in H0.
    destruct (Hres j H0) as (res & _ & Hs & Hj).
    unfold success, status_of in Hs. rewrite Hj in Hs.
    apply andb_true_iff in Hs. destruct Hs as [_ Hs].
    destruct (prop j "status") as [st|] eqn:Hp; [|discriminate].
    apply is_string_eq in Hs. subst st.
    destruct j; try discriminate Hp; cbn in Hp.
    - exists fields. split; [reflexivity | congruence]. }
  intros H.
  destruct (callApi_course path params rc s)
    as [Hr Hs|res Hd Ha Hs Hf Hn|res s2 Hd Ha Hr Hc Hs].
  - rewrite Hr in H. eauto.
  - now destruct (Hn j).
  - rewrite Hc in H. eauto.
Qed.

(** The request of a call follows the query and path rules. *)
Lemma request_well_addressed path params s :
  well_addressed (nid (this s)) (basePath (this s)) path params
                 (request_of path params s).
Proof.
  unfold well_addressed, request_of, options.
  cbn [Http.query Http.resourcePath].
  split; [|split; [|split; [|split]]].
  - intros H. rewrite JSFacts.own_spread_absent by exact H. reflexivity.
  - intros H. eexists. rewrite JSFacts.own_spread_absent by exact H.
    reflexivity.
  - intros k H. now apply JSFacts.own_spread_present.
  - now intros ->.
  - now intros ->.
Qed.

(** C4 (as amended).  Every request a call makes carries the injected nid
    and timestamp unless the caller's params supply those keys, in which
    case the caller's value is sent; a path that starts with /admin is
    requested as it is, and any other path is prefixed with the base
    path. *)
Theorem callApi_requests_well_addressed path params rc s :
  let r := _callApi path params rc s in
  exists sent_now,
    exchanges (trace (snd r)) = exchanges (trace s) ++ sent_now /\
    sent_now <> [] /\
    Forall (fun x => well_addressed (nid (this s)) (basePath (this s))
                                    path params (fst x)) sent_now.
Proof.
  intros r. subst r.
  destruct (callApi_exchanges path params rc s)
    as [[Hone _]|(res & s2 & Hd & Ha & Hr & Hc & Hs & Htwo & Hrf)].
  - eexists. split; [exact Hone|]. split; [discriminate|].
    constructor; [|constructor]. apply request_well_addressed.
  - eexists. split; [exact Htwo|]. split; [discriminate|].
    constructor; [|constructor; [|constructor]]; cbn [fst].
    + apply request_well_addressed.
    + pose proof (refresh_credentials_preserved (sent path params s)) as Hp.
      rewrite Hr in Hp. cbn [snd] in Hp.
      destruct Hp as (Hn & _ & _ & _ & _ & Hb & _).
      rewrite sent_this in Hn, Hb. rewrite <- Hn, <- Hb.
      apply request_well_addressed.
Qed.

(** C4 as stated fails: params that carry the key nid replace the injected
    device id in the query. *)
Lemma callApi_params_overwrite_nid :
  let s := Scenario.system [Scenario.status_200] [] in
  let r := _callApi "/timerList.do" [("nid", Str "999")] 0 s in
  exists rq,
    exchanges (trace (snd r)) = [(rq, Scenario.status_200)] /\
    own "nid" (Http.query rq) = Some (Str "999") /\
    own "nid" (Http.query rq) <> Some (nid (this s)).
Proof.
  cbv zeta. eexists. split; [reflexivity|]. split; [reflexivity|].
  discriminate.
Qed.

Lemma truthy_length {A} (x : A) l :
  truthy (Int (Z.of_nat (List.length (x :: l)))) = true.
Proof.
  unfold truthy, Int. apply negb_true_iff.
  destruct (Qeq_bool (inject_Z (Z.of_nat (List.length (x :: l)))) 0) eqn:E;
    [|reflexivity].
  apply Qeq_bool_iff in E. unfold Qeq in E. cbn in E. lia.
Qed.

Lemma updateTimerIntensity_fetched newRunTime s listJson s1 fields others :
  fetch_timers s = (Resolved listJson, s1) ->
  prop listJson "data" = Some (Arr (Obj fields :: others)) ->
  updateTimerIntensity newRunTime s
  = let r := update_timer fields newRunTime
                          (snd (set_timerCache (Obj fields) s1)) in
    (lift_unit (fst r), snd r).
Proof.
  unfold fetch_timers, update_timer. intros Hfetch Hdata.
  destruct (callApi_resolved "/timerList.do" [("isBluetooth", Int 0)] 0%nat s
              listJson) as (lf & -> & Hst).
  { now rewrite Hfetch. }
  cbn in Hdata. injection Hdata as Hdata.
  unfold updateTimerIntensity, bind, try_catch, read, elem, ret, throw,
    set_timerCache.
  rewrite Hfetch.
  cbn -[_callApi lookup with_this truthy Int Z.of_nat List.length].
  rewrite Hdata.
  cbn -[_callApi lookup with_this truthy Int Z.of_nat List.length].
  rewrite truthy_length.
  cbn -[_callApi lookup with_this Int Z.of_nat List.length].
  fold (update_params fields newRunTime).
  now destruct (_callApi "/updateTimer.do" _ _ _) as [[]].
Qed.


Lemma runTime_of_Z v :
  runTime_of v = Num (inject_Z (Z.max 5 (round (v * 3)))).
Proof. unfold runTime_of, Math_round. apply (JSFacts.Math_max_Z 5). Qed.


Lemma round_integer n : round (inject_Z n * 3) = 3 * n.
Proof.
  rewrite (JSFacts.round_comp _ (inject_Z (3 * n))).
  - apply JSFacts.round_inject_Z.
  - unfold Qeq, Qmult, inject_Z. cbn [Qnum Qden]. lia.
Qed.

(** For a whole percentage the run time is three seconds a point, and never
    under five seconds. *)
Lemma runTime_of_integer n :
  runTime_of (inject_Z n) = Num (inject_Z (Z.max 5 (3 * n))).
Proof. now rewrite runTime_of_Z, round_integer. Qed.


Lemma setRotationSpeed_nonzero v s :
  Qeq_bool v 0 = false ->
  setRotationSpeed v s
  = let r := updateTimerIntensity (Number (runTime_of v)) s in
    (match fst r with
     | Rejected _ => Rejected communication_failure
     | o => o
     end, snd r).
Proof.
  intros H. unfold setRotationSpeed, try_catch, throw. rewrite H.
  now destruct (updateTimerIntensity _ s) as [[]].
Qed.



Lemma current_app c us us' :
  current c (us ++ us')
  = match current c us' with
    | Some v => Some v
    | None => current c us
    end.
Proof.
  induction us as [|[c' v] us IH]; cbn.
  - now destruct (current c us').
  - rewrite IH. now destruct (current c us').
Qed.

Section Coercion.

Variable ToNumber_ext : value -> number.

Lemma speed_of_number q :
  speed_of ToNumber_ext (or_else (Number (Num q)) (Int 0))
  = Num (inject_Z (Z.min 100 (round (q / 3)))).
Proof.
  unfold speed_of, or_else, truthy.
  destruct (Qeq_bool q 0) eqn:E; cbn [negb ToNumber Int div Math_round].
  - apply Qeq_bool_iff in E.
    rewrite (JSFacts.round_comp (inject_Z 0 / 3) (q / 3)) by now rewrite E.
    apply (JSFacts.Math_min_Z 100).
  - apply (JSFacts.Math_min_Z 100).
Qed.

Lemma prop_truthy v k : truthy v = true -> exists x, prop v k = Some x.
Proof. destruct v; cbn; try discriminate; eauto. Qed.

Lemma getRotationSpeed_total s :
  exists pct, getRotationSpeed ToNumber_ext s = (Resolved pct, s).
Proof.
  unfold getRotationSpeed, bind, get_this, ret, read.
  destruct (truthy (timerCache (this s))) eqn:E.
  - destruct (prop_truthy _ "run" E) as [x Hx]. rewrite Hx. unfold ret.
    eauto.
  - eauto.
Qed.

Lemma getRotationSpeed_cached s fields :
  timerCache (this s) = Obj fields ->
  getRotationSpeed ToNumber_ext s
  = (Resolved (speed_of ToNumber_ext (or_else (lookup "run" fields) (Int 0))),
     s).
Proof.
  intros H. unfold getRotationSpeed, bind, get_this, read.
  now rewrite H.
Qed.

(** C9.  [getRotationSpeed] always returns, and leaves the whole state,
    trace of requests included, as it found it.  With a timer object in the
    cache whose run field is the number [q] it returns
    min(100, round(q / 3)); with the cache as the constructor leaves it
    (null) it returns 50.  After an intensity-set that succeeds, the cache
    holds the timer that was fetched and [getRotationSpeed] returns the
    percentage of that timer's run field. *)
Theorem getRotationSpeed_reads_cache s :
  (exists pct, getRotationSpeed ToNumber_ext s = (Resolved pct, s)) /\
  (forall fields q,
      timerCache (this s) = Obj fields ->
      lookup "run" fields = Number (Num q) ->
      getRotationSpeed ToNumber_ext s
      = (Resolved (Num (inject_Z (Z.min 100 (round (q / 3))))), s)) /\
  (timerCache (this s) = Null ->
   getRotationSpeed ToNumber_ext s = (Resolved (Num 50), s)) /\
  (forall config d, constructor config = Some d -> timerCache d = Null) /\
  (forall v listJson s1 fields others j s2,
      (~ v == 0)%Q ->
      fetch_timers s = (Resolved listJson, s1) ->
      prop listJson "data" = Some (Arr (Obj fields :: others)) ->
      update_timer fields (Number (runTime_of v))
                   (snd (set_timerCache (Obj fields) s1))
      = (Resolved j, s2) ->
      setRotationSpeed v s = (Resolved tt, s2) /\
      timerCache (this s2) = Obj fields /\
      getRotationSpeed ToNumber_ext s2
      = (Resolved (speed_of ToNumber_ext
                     (or_else (lookup "run" fields) (Int 0))), s2)).
Proof.
  split; [apply getRotationSpeed_total|].
  split.
  { intros fields q Hc Hr. rewrite (getRotationSpeed_cached _ _ Hc), Hr.
    now rewrite speed_of_number. }
  split.
  { intros Hc. unfold getRotationSpeed, bind, get_this, ret.
    now rewrite Hc. }
  split.
  { intros config d Hd. unfold constructor in Hd.
    destruct (prop config "nid"), (prop config "token"),
      (prop config "username"), (prop config "appid"), (prop config "uid"),
      (prop config "sessionId"); try discriminate.
    now injection Hd as <-. }
  intros v listJson s1 fields others j s2 Hv Hfetch Hdata Hupd.
  assert (Hnz : Qeq_bool v 0 = false).
  { destruct (Qeq_bool v 0) eqn:E; [|reflexivity].
    now apply Qeq_bool_iff in E. }
  assert (Hc : timerCache (this s2) = Obj fields).
  { pose proof (callApi_preserved "/updateTimer.do"
                  (update_params fields (Number (runTime_of v))) 0
                  (snd (set_timerCache (Obj fields) s1))) as Hp.
    unfold update_timer in Hupd. rewrite Hupd in Hp.
    destruct Hp as (_ & _ & _ & _ & _ & _ & _ & _ & Ht & _). exact Ht. }
  split; [|split; [exact Hc | now apply getRotationSpeed_cached]].
  rewrite (setRotationSpeed_nonzero _ _ Hnz).
  rewrite (updateTimerIntensity_fetched _ _ _ _ _ _ Hfetch Hdata).
  cbv zeta. now rewrite Hupd.
Qed.

(** C10.  When the timer list is fetched with a timer object first in it
    and the update call that follows is rejected, [setRotationSpeed] fails
    with a service communication failure, yet the cache already holds the
    fetched timer: a later [getRotationSpeed] answers from that timer, not
    from what was cached before the operation. *)
Theorem failed_update_leaves_fetched_timer_cached v s listJson s1 fields
    others e s2 :
  (~ v == 0)%Q ->
  fetch_timers s = (Resolved listJson, s1) ->
  prop listJson "data" = Some (Arr (Obj fields :: others)) ->
  update_timer fields (Number (runTime_of v))
               (snd (set_timerCache (Obj fields) s1))
  = (Rejected e, s2) ->
  setRotationSpeed v s = (Rejected communication_failure, s2) /\
  timerCache (this s2) = Obj fields /\
  timerCache (this (snd (set_timerCache (Obj fields) s1))) = Obj fields /\
  getRotationSpeed ToNumber_ext s2
  = (Resolved (speed_of ToNumber_ext (or_else (lookup "run" fields) (Int 0))),
     s2).
Proof.
  intros Hv Hfetch Hdata Hupd.
  assert (Hnz : Qeq_bool v 0 = false).
  { destruct (Qeq_bool v 0) eqn:E; [|reflexivity].
    now apply Qeq_bool_iff in E. }
  assert (Hc : timerCache (this s2) = Obj fields).
  { pose proof (callApi_preserved "/updateTimer.do"
                  (update_params fields (Number (runTime_of v))) 0
                  (snd (set_timerCache (Obj fields) s1))) as Hp.
    unfold update_timer in Hupd. rewrite Hupd in Hp.
    destruct Hp as (_ & _ & _ & _ & _ & _ & _ & _ & Ht & _). exact Ht. }
  split; [|split; [exact Hc | split; [reflexivity|]]].
  - rewrite (setRotationSpeed_nonzero _ _ Hnz).
    rewrite (updateTimerIntensity_fetched _ _ _ _ _ _ Hfetch Hdata).
    cbv zeta. now rewrite Hupd.
  - now apply getRotationSpeed_cached.
Qed.




Lemma setLock_run requested s :
  setLock requested s
  = let r := lock_call requested s in
    match fst r with
    | Resolved _ => (Resolved tt, snd (setTimeout PollStatus 1000 (snd r)))
    | Rejected _ =>
        (Rejected communication_failure,
         snd (setTimeout (UpdateLock (opposite requested)) 500 (snd r)))
    | Pending => (Pending, snd r)
    end.
Proof.
  unfold setLock, lock_call, opposite, try_catch, bind, throw.
  destruct (truthy requested); cbn [negb];
    now destruct (_callApi _ _ _ s) as [[]].
Qed.

(** C8.  [setLock(value)] calls deviceLock.do for a truthy value and
    deviceUnlock.do, with days = 0 and an empty name, otherwise, both
    root-relative.  When that call is rejected, a timer of 500 ms is set
    whose callback writes the opposite lock flag to the
    LockPhysicalControls characteristic, and the operation is rejected with
    a service communication failure; when it resolves, the operation
    resolves and a status poll is scheduled after 1000 ms. *)
Theorem setLock_compensates_on_failure requested s :
  let r := lock_call requested s in
  let done := setLock requested s in
  (exists rq rest,
      exchanges (trace (snd r))
      = exchanges (trace s) ++ (rq, delivered s) :: rest /\
      exchanges (trace (snd done)) = exchanges (trace (snd r)) /\
      Http.resourcePath rq = lock_path requested /\
      (truthy requested = false ->
       own "days" (Http.query rq) = Some (Int 0) /\
       own "name" (Http.query rq) = Some (Str EmptyString))) /\
  (forall e, fst r = Rejected e ->
     fst done = Rejected communication_failure /\
     timers (trace (snd done))
     = timers (trace s) ++ [(UpdateLock (opposite requested), 500)] /\
     current LockPhysicalControls
       (updates (trace (snd (fire ToNumber_ext
                               (UpdateLock (opposite requested))
                               (snd done)))))
     = Some (opposite requested)) /\
  (forall j, fst r = Resolved j ->
     fst done = Resolved tt /\
     timers (trace (snd done)) = timers (trace s) ++ [(PollStatus, 1000)]).
Proof.
  intros r done.
  assert (Htm : timers (trace (snd r)) = timers (trace s)).
  { unfold r, lock_call.
    destruct (truthy requested);
      match goal with
      | |- context [_callApi ?p ?ps ?n s] =>
          destruct (callApi_preserved p ps n s)
            as (_ & _ & _ & _ & _ & _ & _ & _ & _ & Ht & _); exact Ht
      end. }
  split; [|split].
  - assert (Hdone : exchanges (trace (snd done)) = exchanges (trace (snd r))).
    { unfold done. rewrite setLock_run. cbv zeta. fold r.
      destruct (fst r); reflexivity. }
    unfold r, lock_call, lock_path in *.
    destruct (truthy requested);
      match goal with
      | |- context [_callApi ?p ?ps ?n s] =>
          destruct (callApi_exchanges p ps n s)
            as [[Hone _]|(res & s2 & _ & _ & _ & _ & _ & Htwo & _)]
      end;
      do 2 eexists;
      (split; [first [exact Hone | exact Htwo]|]);
      (split; [exact Hdone|]);
      (split; [reflexivity|]);
      intros; try discriminate; split; reflexivity.
  - intros e He. unfold done. rewrite setLock_run. cbv zeta. fold r.
    rewrite He.
    cbn [fst snd]. split; [reflexivity|]. split.
    + cbn. now rewrite Htm.
    + cbn -[current]. rewrite current_app. reflexivity.
  - intros j Hj. unfold done. rewrite setLock_run. cbv zeta. fold r.
    rewrite Hj.
    cbn [fst snd]. split; [reflexivity|]. cbn. now rewrite Htm.
Qed.

End Coercion.

Lemma callApi_requests_well_addressed_witness :
  let s := Scenario.system [Scenario.status_200] [] in
  let r := _callApi "/admin/amos/deviceLock.do" [] 0 s in
  exists rq,
    exchanges (trace (snd r)) = [(rq, Scenario.status_200)] /\
    own "nid" (Http.query rq) = Some (Str "12345") /\
    Http.resourcePath rq = "/admin/amos/deviceLock.do".
Proof.
  cbv zeta.
  destruct (callApi_requests_well_addressed "/admin/amos/deviceLock.do" [] 0
              (Scenario.system [Scenario.status_200] []))
    as (new & Hex & _ & Hall).
  cbn in Hex. subst new.
  inversion Hall as [|x l (Hnid & _ & _ & Hadmin & _) _]. subst.
  eexists. split; [reflexivity|]. split.
  - apply Hnid. reflexivity.
  - apply Hadmin. reflexivity.
Defined.


Lemma setLock_compensates_on_failure_witness :
  let done := setLock (Int 1) (Scenario.system [Scenario.http_500] []) in
  fst done = Rejected communication_failure /\
  timers (trace (snd done)) = [(UpdateLock (Int 0), 500)] /\
  (exists rq rp,
      exchanges (trace (snd done)) = [(rq, rp)] /\
      Http.resourcePath rq = "/admin/amos/deviceLock.do").
Proof.
  destruct (setLock_compensates_on_failure (fun _ => NaN) (Int 1)
              (Scenario.system [Scenario.http_500] []))
    as ((rq & rest & Hex & Hdone & Hpath & _) & Hfail & _).
  destruct (Hfail _ eq_refl) as (Hr & Ht & _).
  cbv zeta. split; [exact Hr|]. split; [exact Ht|].
  exists rq, Scenario.http_500. split; [|exact Hpath].
  rewrite Hdone, Hex. cbn in Hex |- *.
  injection Hex as _ <-. reflexivity.
Defined.

Lemma getRotationSpeed_reads_cache_witness :
  let s := Scenario.system [Scenario.timer_list; Scenario.status_200] [] in
  getRotationSpeed (fun _ => NaN) s = (Resolved (Num 50), s) /\
  getRotationSpeed (fun _ => NaN) (snd (setRotationSpeed 30 s))
  = (Resolved (Num 2), snd (setRotationSpeed 30 s)).
Proof.
  cbv zeta. split.
  - apply (proj1 (proj2 (proj2 (getRotationSpeed_reads_cache (fun _ => NaN)
             (Scenario.system [Scenario.timer_list; Scenario.status_200] []))))).
    reflexivity.
  - assert (Hv : ~ (30 == 0)%Q) by discriminate.
    destruct (proj2 (proj2 (proj2 (proj2 (getRotationSpeed_reads_cache
                (fun _ => NaN)
                (Scenario.system [Scenario.timer_list; Scenario.status_200] [])))))
                30%Q _ _ _ _ _ _ Hv eq_refl eq_refl eq_refl)
      as (Hset & _ & Hget).
    rewrite Hset. cbn [snd]. exact Hget.
Defined.

Lemma failed_update_leaves_fetched_timer_cached_witness :
  let s := Scenario.system [Scenario.timer_list; Scenario.http_500] [] in
  let r := setRotationSpeed 30 s in
  fst r = Rejected communication_failure /\
  timerCache (this s) = Null /\
  timerCache (this (snd r)) = Scenario.timer /\
  fst (getRotationSpeed (fun _ => NaN) s) = Resolved (Num 50) /\
  fst (getRotationSpeed (fun _ => NaN) (snd r)) = Resolved (Num 2).
Proof.
  assert (Hv : ~ (30 == 0)%Q) by discriminate.
  destruct (failed_update_leaves_fetched_timer_cached (fun _ => NaN) 30%Q
              (Scenario.system [Scenario.timer_list; Scenario.http_500] [])
              _ _ _ _ _ _ Hv eq_refl eq_refl eq_refl)
    as (Hset & Hc & _ & Hget).
  cbv zeta. rewrite Hset. cbn [fst snd].
  split; [reflexivity|]. split; [reflexivity|]. split; [exact Hc|].
  split; [reflexivity|]. now rewrite Hget.
Defined.

(** *** Failures of [_callApi] *)

(** How a call ends on a response that is neither a success nor an
    authentication failure, whatever [retryCount] is. *)
Lemma callApi_other_response path params rc s res :
  delivered s = Response res ->
  auth_failure res = false ->
  success res = false ->
  _callApi path params rc s
  = (Rejected
       (if statusCode res =? 200 then
          match json res with
          | Some j =>
              match prop j "status" with
              | Some st => STATUS_ERROR j st
              | None => INVALID_RESPONSE res
              end
          | None => INVALID_RESPONSE res
          end
        else HTTP_ERROR res),
     sent path params s).
Proof.
  intros Hd Ha Hs.
  assert (H1 : _callApi path params rc s = _callApi path params 1 s).
  { destruct rc as [|n].
    - apply callApi_first_attempt_final. intros res' Hd'. congruence.
    - unfold _callApi. cbn [_callApi_fuel]. apply body_last_attempt. }
  rewrite H1, callApi_unfold.
  destruct s as [d [net ses clk tk] [ex rf tm up]].
  destruct net as [|[res'| |] net]; try discriminate Hd.
  cbn in Hd. injection Hd as ->.
  unfold auth_failure, success, status_of in Ha, Hs.
  unfold sent, HTTP_ERROR, INVALID_RESPONSE, STATUS_ERROR.
  unfold_M. unfold classify.
  repeat (cbn -[options orb]; try split_match); try reflexivity; finish.
Qed.

Lemma sent_one_exchange_only path params s :
  one_exchange_only path params s (sent path params s).
Proof.
  split; [apply sent_exchanges|]. repeat split.
Qed.

(** X1.  A response whose HTTP status is not 200 rejects the call with
    "API HTTP Error <status>", at any retryCount and whatever the body says
    (a body that carries AuthenticationException included): one request,
    no refresh, no retry, nothing changed in the accessory. *)
Theorem callApi_http_error_is_final path params rc s res :
  delivered s = Response res ->
  statusCode res <> 200 ->
  let r := _callApi path params rc s in
  fst r = Rejected (HTTP_ERROR res) /\
  one_exchange_only path params s (snd r).
Proof.
  intros Hd Hs r. subst r.
  apply Z.eqb_neq in Hs.
  rewrite (callApi_other_response _ _ _ _ res Hd)
    by (unfold auth_failure, success; now rewrite Hs).
  rewrite Hs. split; [reflexivity | apply sent_one_exchange_only].
Qed.


(** X3.  The status test is strict: an HTTP 200 response whose parsed body
    has a status other than the strings "200", "AuthenticationException"
    and "401" (the number 200 and a missing status included) rejects the
    call with "API returned status <status>: <body>", without refresh or
    retry. *)
Theorem callApi_other_status_is_final path params rc s res j st :
  delivered s = Response res ->
  statusCode res = 200 ->
  json res = Some j ->
  prop j "status" = Some st ->
  st <> Str "200" ->
  st <> Str "AuthenticationException" ->
  st <> Str "401" ->
  let r := _callApi path params rc s in
  fst r = Rejected (Error [Lit "API returned status "; Val st; Lit ": ";
                           Stringify j]) /\
  one_exchange_only path params s (snd r).
Proof.
  intros Hd Hs Hj Hp H200 Hauth H401 r. subst r.
  assert (Hne : forall a, st <> Str a -> is_string st a = false).
  { intros a Ha. destruct (is_string st a) eqn:E; [|reflexivity].
    now apply is_string_eq in E. }
  rewrite (callApi_other_response _ _ _ _ res Hd).
  - rewrite Hs, Hj, Hp. split; [reflexivity | apply sent_one_exchange_only].
  - unfold auth_failure, status_of. rewrite Hj, Hp, !Hne by assumption.
    apply andb_false_r.
  - unfold success, status_of. rewrite Hj, Hp, Hne by assumption.
    apply andb_false_r.
Qed.

(** X4.  A socket error rejects the call with that very error, at any
    retryCount: one request, no refresh, no retry. *)
Theorem callApi_socket_error_is_final path params rc s e :
  delivered s = SocketError e ->
  let r := _callApi path params rc s in
  fst r = Rejected e /\ one_exchange_only path params s (snd r).
Proof.
  intros Hd r. subst r.
  assert (H1 : _callApi path params rc s = _callApi path params 1 s).
  { destruct rc as [|n].
    - apply callApi_first_attempt_final. intros res' Hd'. congruence.
    - unfold _callApi. cbn [_callApi_fuel]. apply body_last_attempt. }
  rewrite H1, callApi_unfold.
  destruct s as [d [net ses clk tk] [ex rf tm up]].
  destruct net as [|[res'|e'|] net]; try discriminate Hd.
  cbn in Hd. injection Hd as ->.
  split; [reflexivity|].
  apply (sent_one_exchange_only path params
           {| this := d;
              world := {| network := SocketError e :: net; session := ses;
                          clock := clk; ticks := tk |};
              trace := {| exchanges := ex; refreshes := rf; timers := tm;
                          updates := up |} |}).
Qed.

(** X5.  When the first response is an authentication failure and the
    refresh is rejected, or fulfils with null or undefined, the call is
    rejected with the refresh error (the TypeError of reading token in the
    second case), not with a status error; only the one request was made,
    refreshSession was called once, and the cached credentials and the
    rest of the accessory are as they were. *)
Theorem callApi_refresh_failure_is_final path params s res :
  delivered s = Response res ->
  auth_failure res = true ->
  let r := _callApi path params 0 s in
  (forall e, next_refresh s = Rejected e -> fst r = Rejected e) /\
  (next_refresh s = Resolved Null \/ next_refresh s = Resolved Undefined ->
   fst r = Rejected (TypeError "token")) /\
  ((exists e, next_refresh s = Rejected e) \/
   next_refresh s = Resolved Null \/ next_refresh s = Resolved Undefined ->
   exchanges (trace (snd r))
   = exchanges (trace s) ++ [(request_of path params s, Response res)] /\
   refreshes (trace (snd r)) = S (refreshes (trace s)) /\
   untouched s (snd r)).
Proof.
  intros Hd Ha r. subst r.
  rewrite (callApi_first_attempt_retry _ _ _ _ Hd Ha).
  unfold next_refresh.
  destruct s as [d [net ses clk tk] [ex rf tm up]].
  destruct net as [|[res'| |] net]; try discriminate Hd.
  cbn in Hd. injection Hd as ->.
  unfold sent, untouched. unfold_M. cbn -[options _callApi].
  split; [|split].
  - intros e He. destruct ses as [|[|c|e'] ses]; try discriminate He.
    cbn in He. injection He as ->. reflexivity.
  - intros [H|H]; destruct ses as [|[|c|e'] ses]; try discriminate H;
      cbn in H; injection H as ->; reflexivity.
  - intros [[e H]|[H|H]]; destruct ses as [|[|c|e'] ses]; try discriminate H;
      cbn in H; injection H as ?; subst; cbn; auto.
Qed.

(** X6.  A call resolves only with the parsed body of the last response it
    received, and only when that response is a success: HTTP 200 and a
    body that is an object whose status is the string "200". *)
Theorem callApi_resolves_with_last_success path params rc s j :
  fst (_callApi path params rc s) = Resolved j ->
  exists earlier rq res fields,
    exchanges (trace (snd (_callApi path params rc s)))
    = earlier ++ [(rq, Response res)] /\
    statusCode res = 200 /\
    json res = Some j /\
    j = Obj fields /\
    lookup "status" fields = Str "200".
Proof.
  intros H.
  destruct (callApi_resolved _ _ _ _ _ H) as (fields & Hj & Hst).
  assert (Hlast : forall s0,
             fst (_callApi path params 1 s0) = Resolved j ->
             exists res, delivered s0 = Response res /\
                         statusCode res = 200 /\ json res = Some j).
  { intros s0 H0.
    destruct (callApi_last_attempt path params 0 s0) as (o & Ho & _ & _ & Hres).
    rewrite Ho in H0. destruct (Hres j H0) as (res & Hd & Hs & Hjs).
    exists res. split; [exact Hd|]. split; [|exact Hjs].
    unfold success in Hs. apply andb_true_iff in Hs.
    now apply Z.eqb_eq. }
  destruct (callApi_course path params rc s)
    as [Hr Hs|res Hd Ha Hs Hf Hn|res s2 Hd Ha Hr Hc Hs].
  - rewrite Hr in H. destruct (Hlast s H) as (res & Hd & H200 & Hjs).
    exists (exchanges (trace s)), (request_of path params s), res, fields.
    rewrite Hs, sent_exchanges, Hd. auto.
  - now destruct (Hn j).
  - rewrite Hc in H. destruct (Hlast s2 H) as (res2 & Hd2 & H200 & Hjs).
    exists (exchanges (trace s2)), (request_of path params s2), res2, fields.
    rewrite Hs, sent_exchanges, Hd2. auto.
Qed.

(** X7.  The cached credentials change only through a refresh: a call
    during which refreshSession was not called leaves every field of
    [this] as it was, and a call made with a retry count of one or more
    never calls refreshSession. *)
Theorem callApi_credentials_change_only_by_refresh path params rc s :
  let r := _callApi path params rc s in
  (refreshes (trace (snd r)) = refreshes (trace s) -> this (snd r) = this s) /\
  (forall n, refreshes (trace (snd (_callApi path params (S n) s)))
             = refreshes (trace s)).
Proof.
  intros r. subst r. split.
  - intros Hrf.
    destruct (callApi_course path params rc s)
      as [Hr Hs|res Hd Ha Hs Hf Hn|res s2 Hd Ha Hr Hc Hs].
    + now rewrite Hs.
    + rewrite Hs in Hrf.
      destruct (refresh_credentials_run (sent path params s)) as (H & _).
      rewrite H in Hrf. cbn in Hrf. lia.
    + rewrite Hs in Hrf.
      destruct (refresh_credentials_run (sent path params s)) as (H & _).
      rewrite Hr in H. cbn in H, Hrf. lia.
  - intros n.
    destruct (callApi_last_attempt path params n s) as (o & Ho & _).
    now rewrite Ho.
Qed.

(** *** Power, consumable reset and the poller *)

Lemma setOn_run requested s :
  setOn requested s
  = let r := power_call requested s in
    match fst r with
    | Resolved _ => (Resolved tt, snd (set_isOn requested (snd r)))
    | Rejected _ => (Rejected communication_failure, snd r)
    | Pending => (Pending, snd r)
    end.
Proof.
  unfold setOn, power_call, power_path, try_catch, bind, throw.
  now destruct (_callApi _ [] 0 s) as [[]].
Qed.

(** X8.  [setOn(value)] requests openFragrance.do for a truthy value and
    closeFragrance.do otherwise, under the base path and with no query
    parameter besides nid and timestamp.  When the call resolves, isOn
    becomes the value and [getOn] returns it; when the call is rejected the
    operation fails with a service communication failure and [getOn] still
    returns what it returned before. *)
Theorem setOn_updates_state_only_on_success requested s :
  let r := power_call requested s in
  let done := setOn requested s in
  (exists rq rest,
      exchanges (trace (snd done))
      = exchanges (trace s) ++ (rq, delivered s) :: rest /\
      Http.resourcePath rq
      = (basePath (this s)
         ++ (if truthy requested then "/openFragrance.do"
             else "/closeFragrance.do"))%string /\
      map fst (Http.query rq) = ["nid"; "timestamp"]) /\
  (forall j, fst r = Resolved j ->
     fst done = Resolved tt /\
     getOn (snd done) = (Resolved requested, snd done)) /\
  (forall e, fst r = Rejected e ->
     fst done = Rejected communication_failure /\
     getOn (snd done) = (Resolved (isOn (this s)), snd done)).
Proof.
  intros r done.
  assert (Hp : preserved s (snd r)).
  { unfold r, power_call. apply callApi_preserved. }
  split; [|split].
  - assert (Hdone : exchanges (trace (snd done)) = exchanges (trace (snd r))).
    { unfold done. rewrite setOn_run. cbv zeta. fold r.
      destruct (fst r); reflexivity. }
    rewrite Hdone. unfold r, power_call, power_path.
    destruct (callApi_exchanges
                (if truthy requested then "/openFragrance.do"
                 else "/closeFragrance.do") [] 0 s)
      as [[Hone _]|(res & s2 & _ & _ & _ & _ & _ & Htwo & _)];
      do 2 eexists;
      (split; [first [exact Hone | exact Htwo]|]);
      (split; [|reflexivity]);
      now destruct (truthy requested).
  - intros j Hj. unfold done. rewrite setOn_run. cbv zeta. fold r.
    rewrite Hj. split; reflexivity.
  - intros e He. unfold done. rewrite setOn_run. cbv zeta. fold r.
    rewrite He. cbn [fst snd]. split; [reflexivity|].
    unfold getOn, bind, get_this, ret.
    destruct Hp as (_ & _ & _ & Hon & _). now rewrite Hon.
Qed.

Lemma resetFilter_run x s :
  resetFilter x s
  = let r := reset_call s in
    match fst r with
    | Resolved _ =>
        (Resolved tt,
         snd ((set_oilLevel (Int 100) ;;
               updateCharacteristic FilterLifeLevel (Int 100) ;;
               updateCharacteristic FilterChangeIndication FILTER_OK)
                (snd r)))
    | Rejected _ => (Rejected communication_failure, snd r)
    | Pending => (Pending, snd r)
    end.
Proof.
  unfold resetFilter, reset_call, try_catch, bind, throw.
  now destruct (_callApi _ _ 0 s) as [[]].
Qed.

Section Coercion.

Variable ToNumber_ext : value -> number.

Lemma getFilterChangeIndication_number s q :
  oilLevel (this s) = Number (Num q) ->
  getFilterChangeIndication ToNumber_ext s
  = (Resolved (if Qle_bool 10 q then FILTER_OK else CHANGE_FILTER), s).
Proof.
  intros H.
  unfold getFilterChangeIndication, getOilLevel, bind, get_this, ret,
    less_than, or_else, truthy.
  rewrite H. destruct (Qeq_bool q 0) eqn:E; cbn [negb ToNumber Int].
  - apply Qeq_bool_iff in E.
    assert (Hq : Qle_bool 10 q = false).
    { destruct (Qle_bool 10 q) eqn:L; [|reflexivity].
      apply Qle_bool_iff in L. rewrite E in L. now contradict L. }
    now rewrite Hq.
  - now destruct (Qle_bool 10 q).
Qed.

(** X9.  [resetFilter] requests resetLiquidLevel.do under the base path
    with liquidLevel = 100.  When the call resolves, the cached level
    becomes 100, FilterLifeLevel is set to 100 and FilterChangeIndication
    to FILTER_OK, and the FilterChangeIndication handler answers FILTER_OK;
    when the call is rejected, the operation fails with a service
    communication failure and the cached level and the characteristics are
    as they were. *)
Theorem resetFilter_refills_only_on_success x s :
  let r := reset_call s in
  let done := resetFilter x s in
  (exists rq rest,
      exchanges (trace (snd done))
      = exchanges (trace s) ++ (rq, delivered s) :: rest /\
      Http.resourcePath rq
      = (basePath (this s) ++ "/resetLiquidLevel.do")%string /\
      own "liquidLevel" (Http.query rq) = Some (Int 100)) /\
  (forall j, fst r = Resolved j ->
     fst done = Resolved tt /\
     oilLevel (this (snd done)) = Int 100 /\
     updates (trace (snd done))
     = updates (trace s)
       ++ [(FilterLifeLevel, Int 100); (FilterChangeIndication, FILTER_OK)] /\
     getFilterChangeIndication ToNumber_ext (snd done)
     = (Resolved FILTER_OK, snd done)) /\
  (forall e, fst r = Rejected e ->
     fst done = Rejected communication_failure /\
     oilLevel (this (snd done)) = oilLevel (this s) /\
     updates (trace (snd done)) = updates (trace s)).
Proof.
  intros r done.
  assert (Hp : preserved s (snd r)).
  { unfold r, reset_call. apply callApi_preserved. }
  destruct Hp as (_ & _ & _ & _ & _ & _ & _ & Hoil & _ & _ & Hup).
  split; [|split].
  - assert (Hdone : exchanges (trace (snd done)) = exchanges (trace (snd r))).
    { unfold done. rewrite resetFilter_run. cbv zeta. fold r.
      destruct (fst r); reflexivity. }
    rewrite Hdone. unfold r, reset_call.
    destruct (callApi_exchanges "/resetLiquidLevel.do"
                [("liquidLevel", Int 100)] 0 s)
      as [[Hone _]|(res & s2 & _ & _ & _ & _ & _ & Htwo & _)];
      do 2 eexists;
      (split; [first [exact Hone | exact Htwo]|]);
      split; reflexivity.
  - intros j Hj. unfold done. rewrite resetFilter_run. cbv zeta. fold r.
    rewrite Hj. clearbody r. cbn [fst snd].
    split; [reflexivity|]. split; [reflexivity|]. split.
    + cbn. rewrite Hup, <- app_assoc. reflexivity.
    + match goal with
      | |- getFilterChangeIndication _ ?s' = _ =>
          exact (getFilterChangeIndication_number s' 100 eq_refl)
      end.
  - intros e He. unfold done. rewrite resetFilter_run. cbv zeta. fold r.
    rewrite He. cbn [fst snd]. auto.
Qed.

(** X10.  The FilterChangeIndication handler makes no request and changes
    nothing.  It answers CHANGE_FILTER exactly when the cached level is
    under 10: for a numeric level [q] that is when q < 10, and a level
    that is undefined counts as 0.  The level the constructor sets, 100,
    gives FILTER_OK. *)
Theorem filter_change_indication_threshold s :
  (forall q, oilLevel (this s) = Number (Num q) -> (q < 10)%Q ->
     getFilterChangeIndication ToNumber_ext s = (Resolved CHANGE_FILTER, s)) /\
  (forall q, oilLevel (this s) = Number (Num q) -> (10 <= q)%Q ->
     getFilterChangeIndication ToNumber_ext s = (Resolved FILTER_OK, s)) /\
  (oilLevel (this s) = Undefined ->
   getOilLevel s = (Resolved (Int 0), s) /\
   getFilterChangeIndication ToNumber_ext s = (Resolved CHANGE_FILTER, s)) /\
  (forall config d, constructor config = Some d -> oilLevel d = Int 100).
Proof.
  split.
  { intros q Hq Hlt. rewrite (getFilterChangeIndication_number _ _ Hq).
    destruct (Qle_bool 10 q) eqn:L; [|reflexivity].
    apply Qle_bool_iff in L. now apply Qlt_not_le in Hlt. }
  split.
  { intros q Hq Hle. rewrite (getFilterChangeIndication_number _ _ Hq).
    apply Qle_bool_iff in Hle. now rewrite Hle. }
  split.
  { intros H.
    unfold getFilterChangeIndication, getOilLevel, bind, get_this, ret.
    now rewrite H. }
  intros config d Hd. unfold constructor in Hd.
  destruct (prop config "nid"), (prop config "token"),
    (prop config "username"), (prop config "appid"), (prop config "uid"),
    (prop config "sessionId"); try discriminate.
  now injection Hd as <-.
Qed.

Lemma pollStatus_run s :
  pollStatus ToNumber_ext s
  = let r := fetch_status s in
    match fst r with
    | Rejected _ => (Resolved tt, snd r)
    | Pending => (Pending, snd r)
    | Resolved response =>
        match prop response "data" with
        | Some data =>
            if truthy data then pollStatus ToNumber_ext s
            else (Resolved tt, snd r)
        | None => (Resolved tt, snd r)
        end
    end.
Proof.
  unfold fetch_status. cbv zeta.
  destruct (_callApi "/amosFragrance.do" [("checkPermissions", Int 0)] 0 s)
    as [[|response|e] s1] eqn:Hf; cbn [fst snd].
  - unfold pollStatus, try_catch, bind. now rewrite Hf.
  - destruct (callApi_resolved "/amosFragrance.do"
                [("checkPermissions", Int 0)] 0%nat s response)
      as (rf & -> & _); [now rewrite Hf|].
    cbn [prop]. destruct (truthy (lookup "data" rf)) eqn:Ht; [reflexivity|].
    unfold pollStatus, try_catch, bind, read, ret. rewrite Hf.
    cbn -[lookup]. now rewrite Ht.
  - unfold pollStatus, try_catch, bind, ret. now rewrite Hf.
Qed.

(** X11.  [pollStatus] never rejects.  When its status call is rejected,
    for whatever reason, it resolves, and the cached state, the caches
    pushed to HomeKit and the timers are as the call left them: as they
    were before the poll. *)
Theorem pollStatus_swallows_failures s :
  (forall e, fst (pollStatus ToNumber_ext s) <> Rejected e) /\
  (forall e, fst (fetch_status s) = Rejected e ->
     let done := pollStatus ToNumber_ext s in
     fst done = Resolved tt /\
     isOn (this (snd done)) = isOn (this s) /\
     oilLevel (this (snd done)) = oilLevel (this s) /\
     timerCache (this (snd done)) = timerCache (this s) /\
     updates (trace (snd done)) = updates (trace s) /\
     timers (trace (snd done)) = timers (trace s)).
Proof.
  split.
  - intros e. unfold pollStatus, try_catch, ret.
    match goal with
    | |- fst (match ?m s with _ => _ end) <> _ => destruct (m s) as [[]]
    end; discriminate.
  - intros e He done. unfold done. rewrite pollStatus_run. cbv zeta.
    rewrite He.
    pose proof (callApi_preserved "/amosFragrance.do"
                  [("checkPermissions", Int 0)] 0 s) as Hp.
    fold fetch_status in Hp.
    destruct Hp as (_ & _ & _ & Hon & _ & _ & _ & Hoil & Htc & Htm & Hup).
    cbn [fst snd]. auto 10.
Qed.

(** X12.  A status call that resolves with a body without a data payload
    (absent, null or otherwise falsy) makes the poll a no-op: it resolves
    and the cached state and the characteristics are as they were. *)
Theorem pollStatus_without_data_is_noop s response s1 data :
  fetch_status s = (Resolved response, s1) ->
  prop response "data" = Some data ->
  truthy data = false ->
  pollStatus ToNumber_ext s = (Resolved tt, s1) /\
  isOn (this s1) = isOn (this s) /\
  oilLevel (this s1) = oilLevel (this s) /\
  updates (trace s1) = updates (trace s).
Proof.
  intros Hf Hd Ht. rewrite pollStatus_run. cbv zeta. rewrite Hf.
  cbn [fst snd]. rewrite Hd, Ht.
  pose proof (callApi_preserved "/amosFragrance.do"
                [("checkPermissions", Int 0)] 0 s) as Hp.
  fold fetch_status in Hp. rewrite Hf in Hp.
  destruct Hp as (_ & _ & _ & Hon & _ & _ & _ & Hoil & _ & _ & Hup).
  auto.
Qed.

End Coercion.

(** *** Intensity: failures of the fetch, and the two conversions *)

(** X13.  When the timer list cannot be fetched, [setRotationSpeed] fails
    with a service communication failure without sending an update: the
    state is the one the fetch left, and the timer cache is what it was. *)
Theorem setRotationSpeed_fetch_failure v s e s1 :
  (~ v == 0)%Q ->
  fetch_timers s = (Rejected e, s1) ->
  setRotationSpeed v s = (Rejected communication_failure, s1) /\
  timerCache (this s1) = timerCache (this s).
Proof.
  intros Hv Hf.
  assert (Hnz : Qeq_bool v 0 = false).
  { destruct (Qeq_bool v 0) eqn:E; [|reflexivity].
    now apply Qeq_bool_iff in E. }
  unfold fetch_timers in Hf.
  split.
  - rewrite (setRotationSpeed_nonzero _ _ Hnz).
    unfold updateTimerIntensity, bind, try_catch, throw.
    now rewrite Hf.
  - pose proof (callApi_preserved "/timerList.do" [("isBluetooth", Int 0)]
                  0 s) as Hp.
    rewrite Hf in Hp. apply Hp.
Qed.

(** X14.  A timer list that is fetched but holds no timer (the data field
    is absent, null, or an empty array) makes [setRotationSpeed] fail with
    a service communication failure; no update is sent and the timer cache
    stays as it was. *)
Theorem setRotationSpeed_without_timers v s listJson s1 data :
  (~ v == 0)%Q ->
  fetch_timers s = (Resolved listJson, s1) ->
  prop listJson "data" = Some data ->
  data = Undefined \/ data = Null \/ data = Arr [] ->
  setRotationSpeed v s = (Rejected communication_failure, s1) /\
  timerCache (this s1) = timerCache (this s).
Proof.
  intros Hv Hf Hd Hcase.
  assert (Hnz : Qeq_bool v 0 = false).
  { destruct (Qeq_bool v 0) eqn:E; [|reflexivity].
    now apply Qeq_bool_iff in E. }
  unfold fetch_timers in Hf.
  destruct (callApi_resolved "/timerList.do" [("isBluetooth", Int 0)] 0%nat s
              listJson) as (lf & -> & _); [now rewrite Hf|].
  cbn in Hd. injection Hd as Hd.
  split.
  - rewrite (setRotationSpeed_nonzero _ _ Hnz).
    unfold updateTimerIntensity, bind, try_catch, throw, read, ret.
    rewrite Hf. cbn -[lookup]. rewrite Hd.
    now destruct Hcase as [-> | [-> | ->]].
  - pose proof (callApi_preserved "/timerList.do" [("isBluetooth", Int 0)]
                  0 s) as Hp.
    rewrite Hf in Hp. apply Hp.
Qed.

Section Coercion.

Variable ToNumber_ext : value -> number.

Lemma round_third n : round (inject_Z (3 * n) / 3) = n.
Proof.
  rewrite (JSFacts.round_comp _ (inject_Z n)).
  - apply JSFacts.round_inject_Z.
  - unfold Qeq, Qdiv, Qmult, Qinv, inject_Z. cbn [Qnum Qden]. lia.
Qed.

(** X15.  Reading back what was written: for a whole percentage [n] from 2
    to 100, the percentage computed from the run time that
    [setRotationSpeed(n)] sends is [n] again; for 1, whose run time is
    raised to the floor of 5 seconds, it is 2. *)
Theorem percentage_round_trip n :
  (2 <= n <= 100 ->
   speed_of ToNumber_ext (or_else (Number (runTime_of (inject_Z n))) (Int 0))
   = Num (inject_Z n)) /\
  speed_of ToNumber_ext (or_else (Number (runTime_of 1)) (Int 0)) = Num 2.
Proof.
  split; [|reflexivity].
  intros Hn. rewrite runTime_of_integer, speed_of_number.
  rewrite Z.max_r by lia. rewrite round_third. now rewrite Z.min_r by lia.
Qed.

(** X16.  The rotation percentage computed from a numeric run time is a
    whole number that never exceeds 100, and for a run time that is not
    negative it is not negative either; run times of 300 seconds and more
    all give 100. *)
Theorem percentage_bounds q :
  exists pct : Z,
    speed_of ToNumber_ext (or_else (Number (Num q)) (Int 0))
    = Num (inject_Z pct) /\
    pct <= 100 /\
    ((0 <= q)%Q -> 0 <= pct) /\
    ((300 <= q)%Q -> pct = 100).
Proof.
  exists (Z.min 100 (round (q / 3))).
  split; [apply speed_of_number|]. split; [lia|]. split.
  - intros Hq. apply Z.min_glb; [lia|].
    rewrite <- (JSFacts.round_inject_Z 0).
    apply JSFacts.round_monotone.
    apply Qle_shift_div_l; [reflexivity|]. now rewrite Qmult_0_l.
  - intros Hq. apply Z.min_l.
    rewrite <- (JSFacts.round_inject_Z 100).
    apply JSFacts.round_monotone.
    apply Qle_shift_div_l; [reflexivity|]. exact Hq.
Qed.

End Coercion.
(** *** The theorems above at concrete systems *)

Lemma callApi_http_error_is_final_witness :
  fst (_callApi "/getStatus.do" [] 0 (Scenario.system [Scenario.http_500] []))
  = Rejected (Error [Lit "API HTTP Error "; Val (Int 500)]).
Proof.
  refine (proj1 (callApi_http_error_is_final "/getStatus.do" [] 0
                   (Scenario.system [Scenario.http_500] []) _ eq_refl _)).
  discriminate.
Defined.


Lemma callApi_other_status_is_final_witness :
  fst (_callApi "/getStatus.do" [] 0 (Scenario.system [Scenario.status_500] []))
  = Rejected (Error [Lit "API returned status "; Val (Str "500"); Lit ": ";
                     Stringify (Obj [("status", Str "500");
                                     ("msg", Str "busy")])]).
Proof.
  refine (proj1 (callApi_other_status_is_final "/getStatus.do" [] 0
                   (Scenario.system [Scenario.status_500] []) _ _ _
                   eq_refl eq_refl eq_refl eq_refl _ _ _));
    discriminate.
Defined.

Lemma callApi_socket_error_is_final_witness :
  fst (_callApi "/getStatus.do" [] 0
         (Scenario.system [SocketError Scenario.connection_reset] []))
  = Rejected Scenario.connection_reset.
Proof.
  exact (proj1 (callApi_socket_error_is_final "/getStatus.do" [] 0
                  (Scenario.system [SocketError Scenario.connection_reset] [])
                  _ eq_refl)).
Defined.

Lemma callApi_refresh_failure_is_final_witness :
  fst (_callApi "/getStatus.do" [] 0
         (Scenario.system [Scenario.auth_exception]
            [Rejected Scenario.invalid_credentials]))
  = Rejected Scenario.invalid_credentials /\
  fst (_callApi "/getStatus.do" [] 0
         (Scenario.system [Scenario.auth_exception] [Resolved Null]))
  = Rejected (TypeError "token").
Proof.
  split.
  - exact (proj1 (callApi_refresh_failure_is_final "/getStatus.do" [] 
                    (Scenario.system [Scenario.auth_exception]
                       [Rejected Scenario.invalid_credentials])
                    _ eq_refl eq_refl) _ eq_refl).
  - refine (proj1 (proj2 (callApi_refresh_failure_is_final "/getStatus.do" []
                    (Scenario.system [Scenario.auth_exception]
                       [Resolved Null])
                    _ eq_refl eq_refl)) _).
    now left.
Defined.

Lemma callApi_resolves_with_last_success_witness :
  exists earlier rq res fields,
    exchanges (trace (snd (_callApi "/getStatus.do" [] 0
                             (Scenario.system [Scenario.status_200] []))))
    = earlier ++ [(rq, Response res)] /\
    statusCode res = 200 /\
    json res = Some (Obj [("status", Str "200")]) /\
    Obj [("status", Str "200")] = Obj fields /\
    lookup "status" fields = Str "200".
Proof.
  exact (callApi_resolves_with_last_success "/getStatus.do" [] 0
           (Scenario.system [Scenario.status_200] []) _ eq_refl).
Defined.

Lemma pollStatus_without_data_is_noop_witness :
  let s := Scenario.system [Scenario.status_200] [] in
  pollStatus Scenario.no_number s = (Resolved tt, snd (fetch_status s)).
Proof.
  exact (proj1 (pollStatus_without_data_is_noop Scenario.no_number
                  (Scenario.system [Scenario.status_200] []) _ _ _
                  eq_refl eq_refl eq_refl)).
Defined.

Lemma setRotationSpeed_fetch_failure_witness :
  fst (setRotationSpeed 50 (Scenario.system [Scenario.http_500] []))
  = Rejected communication_failure.
Proof.
  refine (f_equal fst
            (proj1 (setRotationSpeed_fetch_failure 50
                      (Scenario.system [Scenario.http_500] []) _ _ _
                      eq_refl))).
  discriminate.
Defined.

Lemma setRotationSpeed_without_timers_witness :
  fst (setRotationSpeed 50 (Scenario.system [Scenario.empty_timer_list] []))
  = Rejected communication_failure.
Proof.
  refine (f_equal fst
            (proj1 (setRotationSpeed_without_timers 50
                      (Scenario.system [Scenario.empty_timer_list] [])
                      _ _ _ _ eq_refl eq_refl _))).
  - discriminate.
  - right. now right.
Defined.

End AccessorySpec.

(** ** Device registration *)

Module DiscoverySpec.

Import JS Auth AuthSpec Discovery.

Lemma rename_UUID i n accs : map UUID (rename i n accs) = map UUID accs.
Proof.
  revert i. induction accs as [|a accs IH]; intros [|i]; cbn;
    try reflexivity. now rewrite IH.
Qed.

Lemma find_Some uuid accs i a :
  find uuid accs = Some (i, a) -> UUID a = uuid /\ In a accs.
Proof.
  revert i. induction accs as [|b accs IH]; intros i; cbn; [discriminate|].
  destruct (String.eqb_spec (UUID b) uuid) as [E|_].
  - intros H. injection H as _ <-. auto.
  - destruct (find uuid accs) as [[j c]|]; [|discriminate].
    intros H. injection H as _ <-. destruct (IH j eq_refl). auto.
Qed.

Lemma find_None uuid accs :
  find uuid accs = None -> ~ In uuid (map UUID accs).
Proof.
  induction accs as [|b accs IH]; cbn; [tauto|].
  destruct (String.eqb_spec (UUID b) uuid) as [E|Hne]; [discriminate|].
  destruct (find uuid accs) as [[j c]|]; [discriminate|].
  intros _ [H|H]; [contradiction | now apply IH].
Qed.

Lemma registered_app cs cs' :
  registered (cs ++ cs') = registered cs ++ registered cs'.
Proof. apply flat_map_app. Qed.

Lemma constructed_app cs cs' :
  constructed (cs ++ cs') = constructed cs ++ constructed cs'.
Proof. apply flat_map_app. Qed.

Lemma or_else_truthy a b : truthy b = true -> truthy (or_else a b) = true.
Proof. unfold or_else. now destruct (truthy a) eqn:E. Qed.

(** The state is the one before, and no call was made. *)
Ltac nothing_done :=
  split; [reflexivity|]; split; [reflexivity|]; split; [reflexivity|];
  exists []; rewrite app_nil_r;
  split; [reflexivity|]; split; [intros ? [] | intros ? ? []].

Section Homebridge.

Variable generate : string -> string.
Variable toString_ext : value -> error + string.
Variable ToNumber_ext : value -> number.

Lemma deviceConfig_of_fields device sessionCreds st c :
  deviceConfig_of toString_ext device sessionCreds st = inr c ->
  truthy (name c) = true /\
  prop sessionCreds "token" = Some (token c) /\
  uid c = field sessionCreds "uid" /\
  sessionId c = field sessionCreds "sessionId" /\
  username c = config_email st /\
  toString toString_ext (field device "nid") = inr (nid c).
Proof.
  unfold deviceConfig_of.
  destruct (prop device "nickname") as [nickname|]; [|discriminate].
  destruct (toString toString_ext (field device "nid")) as [e|t];
    [discriminate|].
  destruct (prop sessionCreds "token") as [tok|]; [|discriminate].
  intros H. injection H as <-. cbn.
  repeat split; auto. now repeat apply or_else_truthy.
Qed.

(** What one [addAccessory] keeps and adds. *)
Lemma addAccessory_step c st :
  map UUID (accessories (addAccessory generate c st))
  = map UUID (accessories st) /\
  config_email (addAccessory generate c st) = config_email st /\
  config_appid (addAccessory generate c st) = config_appid st /\
  exists new,
    calls (addAccessory generate c st) = calls st ++ new /\
    (forall a, In a (registered new) -> uncached (UUID a) st) /\
    (forall a d, In (a, d) (constructed new) ->
       d = c /\ UUID a = generate (nid c) /\
       truthy (token c) = true /\ nid c <> EmptyString).
Proof.
  unfold addAccessory.
  destruct (truthy (token c)) eqn:Ht; cbn [negb orb].
  2:{ nothing_done. }
  cbn [truthy].
  destruct (String.eqb_spec (nid c) EmptyString) as [E|Hne]; cbn [negb].
  { nothing_done. }
  destruct (find (generate (nid c)) (accessories st)) as [[i ex]|] eqn:Hf.
  - destruct (find_Some _ _ _ _ Hf) as [Hu _].
    destruct (strict_equal (displayName ex) (name c)); cbn [negb];
      cbn [accessories config_email config_appid calls];
      rewrite ?rename_UUID;
      (split; [reflexivity|]); (split; [reflexivity|]);
      (split; [reflexivity|]);
      eexists; (split; [reflexivity|]); cbn; (split; [tauto|]);
      intros a d [H|[]]; injection H as <- <-; auto.
  - apply find_None in Hf.
    cbn [accessories config_email config_appid calls].
    split; [reflexivity|]. split; [reflexivity|]. split; [reflexivity|].
    eexists; split; [reflexivity|]. cbn. split.
    + intros a [<-|[]]. exact Hf.
    + intros a d [H|[]]. injection H as <- <-. auto.
Qed.

(** What the loop keeps and adds, whether it ends or throws. *)
Lemma forEach_extends devices sessionCreds st :
  let st' := snd (forEach generate toString_ext devices sessionCreds st) in
  map UUID (accessories st') = map UUID (accessories st) /\
  config_email st' = config_email st /\
  config_appid st' = config_appid st /\
  exists new,
    calls st' = calls st ++ new /\
    (forall a, In a (registered new) -> uncached (UUID a) st) /\
    (forall a c, In (a, c) (constructed new) ->
       fits generate toString_ext sessionCreds devices st a c).
Proof.
  revert st. induction devices as [|device devices IH]; intros st; cbn zeta.
  - cbn [forEach snd]. nothing_done.
  - cbn [forEach].
    destruct (deviceConfig_of toString_ext device sessionCreds st)
      as [e|c] eqn:Hc.
    + cbn [snd]. nothing_done.
    + destruct (deviceConfig_of_fields _ _ _ _ Hc)
        as (Hn & Htok & Hu & Hs & Hm & Hstr).
      destruct (addAccessory_step c st)
        as (Ha & He & Hp & new & Hcalls & Hreg & Hcon).
      destruct (IH (addAccessory generate c st))
        as (Ha' & He' & Hp' & new' & Hcalls' & Hreg' & Hcon').
      split; [congruence|]. split; [congruence|]. split; [congruence|].
      exists (new ++ new'). split; [|split].
      * rewrite Hcalls', Hcalls. now rewrite app_assoc.
      * intros a. rewrite registered_app, in_app_iff. intros [H|H].
        -- now apply Hreg.
        -- apply Hreg' in H. unfold uncached in *. now rewrite <- Ha.
      * intros a d. rewrite constructed_app, in_app_iff. intros [H|H].
        -- apply Hcon in H. destruct H as (-> & H1 & H2 & H3).
           unfold fits. repeat split; auto.
           exists device. split; [now left | exact Hstr].
        -- apply Hcon' in H. unfold fits in *.
           destruct H as (H1 & H2 & H3 & H4 & H5 & H6 & H7 & H8 & dv & Hin & H9).
           repeat split; auto; [congruence|].
           exists dv. split; [now right | exact H9].
Qed.

Lemma forEach_app before rest sessionCreds st :
  fst (forEach generate toString_ext before sessionCreds st) = None ->
  forEach generate toString_ext (before ++ rest) sessionCreds st
  = forEach generate toString_ext rest sessionCreds
      (snd (forEach generate toString_ext before sessionCreds st)).
Proof.
  revert st. induction before as [|d before IH]; intros st; [reflexivity|].
  cbn [app forEach].
  destruct (deviceConfig_of toString_ext d sessionCreds st) as [e|c];
    [discriminate|]. apply IH.
Qed.

(** For an array, [discoverDevices] is the loop over its elements. *)
Lemma discoverDevices_array items sessionCreds st :
  discoverDevices generate toString_ext ToNumber_ext (Arr items)
    sessionCreds st
  = forEach generate toString_ext items sessionCreds st.
Proof.
  unfold discoverDevices. destruct items as [|d items]; reflexivity.
Qed.

(** What [discoverDevices] keeps and adds, for any value of [devices]. *)
Lemma discoverDevices_extends devices sessionCreds st :
  let st' := snd (discoverDevices generate toString_ext ToNumber_ext devices
                    sessionCreds st) in
  map UUID (accessories st') = map UUID (accessories st) /\
  config_email st' = config_email st /\
  config_appid st' = config_appid st /\
  exists new,
    calls st' = calls st ++ new /\
    (forall a, In a (registered new) -> uncached (UUID a) st) /\
    (forall a c, In (a, c) (constructed new) ->
       exists items,
         devices = Arr items /\
         fits generate toString_ext sessionCreds items st a c).
Proof.
  cbn zeta. unfold discoverDevices.
  destruct (truthy devices && greater_than ToNumber_ext
                                (field devices "length") 0);
    [|cbn [snd]; nothing_done].
  destruct devices as [| |b|n|t|items|fields];
    try (cbn [snd]; nothing_done).
  destruct (forEach_extends items sessionCreds st)
    as (Ha & He & Hp & new & Hcalls & Hreg & Hcon).
  split; [exact Ha|]. split; [exact He|]. split; [exact Hp|].
  exists new. split; [exact Hcalls|]. split; [exact Hreg|].
  intros a c H. exists items. split; [reflexivity | now apply Hcon].
Qed.

(** X26.  Auto-discovery and the accessory cache.  However
    [auth.getCredentials] settles and whatever the device listing holds,
    [autoDiscover] only adds calls to those made before, it leaves the
    UUIDs of the cached accessories as they are (a cached accessory is at
    most renamed), and it never registers an accessory whose UUID is in
    the cache. *)
Theorem autoDiscover_respects_cache creds st :
  let st' := autoDiscover generate toString_ext ToNumber_ext creds st in
  map UUID (accessories st') = map UUID (accessories st) /\
  exists new,
    calls st' = calls st ++ new /\
    forall a, In a (registered new) -> uncached (UUID a) st.
Proof.
  cbn zeta.
  assert (Hsame : map UUID (accessories st) = map UUID (accessories st) /\
                  exists new, calls st = calls st ++ new /\
                    forall a, In a (registered new) -> uncached (UUID a) st).
  { split; [reflexivity|]. exists []. rewrite app_nil_r.
    split; [reflexivity | intros ? []]. }
  unfold autoDiscover. destruct creds as [|c|e]; try exact Hsame.
  destruct (truthy c); [|exact Hsame].
  destruct (field c "token"); try exact Hsame.
  destruct (discoverDevices_extends (field c "devices")
              (Obj [("token", Str s); ("uid", field c "uid");
                    ("sessionId", field c "sessionId")]) st)
    as (Ha & _ & _ & new & Hcalls & Hreg & _).
  split; [exact Ha|]. exists new. split; [exact Hcalls | exact Hreg].
Qed.

(** X27.  A device without a nid stops the registration.  When the
    devices before it were handled without an exception, a listed device
    whose nid is absent or null makes [discoverDevices] throw a TypeError
    on [toString]; the devices before it stay handled, and the devices
    after it are never looked at. *)
Theorem discoverDevices_stops_at_device_without_nid
    before bad after sessionCreds st :
  fst (discoverDevices generate toString_ext ToNumber_ext (Arr before)
         sessionCreds st) = None ->
  prop bad "nickname" <> None ->
  field bad "nid" = Undefined \/ field bad "nid" = Null ->
  discoverDevices generate toString_ext ToNumber_ext
    (Arr (before ++ bad :: after)) sessionCreds st
  = (Some (TypeError "toString"),
     snd (discoverDevices generate toString_ext ToNumber_ext (Arr before)
            sessionCreds st)).
Proof.
  rewrite !discoverDevices_array. intros Hb Hn Hnid.
  rewrite (forEach_app _ _ _ _ Hb). cbn [forEach]. unfold deviceConfig_of.
  destruct (prop bad "nickname"); [|congruence].
  now destruct Hnid as [-> | ->].
Qed.

(** X28.  Auto-discovery needs a token cookie.  When the login succeeds but
    none of its cookies contains [token=], [autoDiscover] registers and
    constructs nothing, whatever the device listing answers: the token is
    null, and reading [creds.token.substring] throws inside the [try]
    block. *)
Theorem autoDiscover_needs_token_cookie
    host user password net net' cookies st :
  logged_in net cookies ->
  Forall (fun c => includes c "token=" = false) cookies ->
  autoDiscover generate toString_ext ToNumber_ext
    (snd (getCredentials host user password net net')) st
  = st.
Proof.
  intros Hl Hno.
  assert (Ht : extractToken cookies = inr Null).
  { unfold extractToken.
    rewrite <- (app_nil_r cookies), (extract_skips _ _ _ Hno). reflexivity. }
  unfold getCredentials. rewrite (login_logged_in _ _ _ _ _ Hl).
  destruct (extractUid cookies) as [e|uid]; [reflexivity|].
  destruct (truthy uid); cbn [negb]; [|reflexivity].
  cbn [fetchDevices snd].
  destruct (match net' with
            | Listing res => fetchDevices_response res
            | ListingError e => Rejected e
            | NoListing => Pending
            end) as [|devices|e]; try reflexivity.
  unfold credentials_of. rewrite Ht.
  destruct (truthy devices); cbn [negb]; [|reflexivity].
  destruct (prop devices "length") as [len|]; [|reflexivity].
  destruct (is_zero len); [reflexivity|].
  destruct (index devices 0) as [pd|]; [|reflexivity].
  destruct (extractSessionId cookies) as [e|sid]; [reflexivity|].
  destruct (prop pd "nid"); reflexivity.
Qed.

(** X29.  The accessory objects [discoverDevices] constructs.  Each of
    them sits on a platform accessory whose UUID is generated from the nid
    of a listed device, as a string; its name, token and nid are not
    empty; and it carries the token, uid and sessionId of the session and
    the configured email as user name. *)
Theorem discoverDevices_constructs_fitting_accessories
    items sessionCreds st :
  exists new,
    calls (snd (discoverDevices generate toString_ext ToNumber_ext
                  (Arr items) sessionCreds st))
    = calls st ++ new /\
    forall a c, In (a, c) (constructed new) ->
                fits generate toString_ext sessionCreds items st a c.
Proof.
  rewrite discoverDevices_array.
  destruct (forEach_extends items sessionCreds st)
    as (_ & _ & _ & new & Hcalls & _ & Hcon).
  exists new. split; [exact Hcalls | exact Hcon].
Qed.

(** X30.  From the login to the accessories.  After a login that gave
    cookies with a uid, every accessory object [autoDiscover] constructs
    from what [getCredentials] returns carries the token and the sessionId
    the extractors find in the login cookies and the uid of the login, and
    it belongs to a device whose nid gives its UUID. *)
Theorem autoDiscover_hands_over_login_cookies
    host user password net net' cookies u st :
  logged_in net cookies ->
  extractUid cookies = inr (Str u) ->
  u <> EmptyString ->
  exists new,
    calls (autoDiscover generate toString_ext ToNumber_ext
             (snd (getCredentials host user password net net')) st)
    = calls st ++ new /\
    forall a c, In (a, c) (constructed new) ->
      extractToken cookies = inr (token c) /\
      extractSessionId cookies = inr (sessionId c) /\
      uid c = Str u /\
      username c = config_email st /\
      UUID a = generate (nid c).
Proof.
  intros Hl Hu Hne.
  assert (Hsame : exists new, calls st = calls st ++ new /\
            forall a c, In (a, c) (constructed new) ->
              extractToken cookies = inr (token c) /\
              extractSessionId cookies = inr (sessionId c) /\
              uid c = Str u /\
              username c = config_email st /\
              UUID a = generate (nid c)).
  { exists []. rewrite app_nil_r. split; [reflexivity | intros ? ? []]. }
  rewrite (getCredentials_listed host user password net net' _ _ Hl Hu Hne). cbn [snd].
  destruct (snd (fetchDevices host cookies (Str u) net'))
    as [|devices|e]; try exact Hsame.
  unfold credentials_of.
  destruct (truthy devices) eqn:Htd; cbn [negb]; [|exact Hsame].
  destruct (prop devices "length") as [len|]; [|exact Hsame].
  destruct (is_zero len); [exact Hsame|].
  destruct (index devices 0) as [pd|]; [|exact Hsame].
  destruct (extractToken cookies) as [e|tok] eqn:Ht; [exact Hsame|].
  destruct (extractSessionId cookies) as [e|sid] eqn:Hs; [exact Hsame|].
  destruct (prop pd "nid") as [n|]; [|exact Hsame].
  unfold autoDiscover. cbn [truthy field prop lookup own String.eqb
                            Ascii.eqb Bool.eqb].
  destruct tok as [| |b|q|t|l|f]; try exact Hsame.
  destruct (discoverDevices_extends devices
              (Obj [("token", Str t); ("uid", Str u); ("sessionId", sid)])
              st)
    as (_ & _ & _ & new & Hcalls & _ & Hcon).
  exists new. split; [exact Hcalls|].
  intros a c H. destruct (Hcon a c H) as (items & _ & Hfit).
  destruct Hfit as (H1 & _ & _ & _ & H5 & H6 & H7 & H8 & _).
  cbn in H5, H6, H7. injection H5 as H5.
  repeat split; congruence.
Qed.

End Homebridge.

(** *** The theorems above at a concrete account *)

Lemma discoverDevices_stops_at_device_without_nid_witness :
  let r := discoverDevices Scenario.uuid_of Scenario.no_toString
             Scenario.no_number
             (Arr [Scenario.bedroom; Scenario.ghost; Scenario.hallway])
             Scenario.session_credentials Scenario.empty_cache in
  fst r = Some (TypeError "toString") /\
  map UUID (registered (calls (snd r))) = ["uuid-12345"].
Proof.
  pose proof (discoverDevices_stops_at_device_without_nid Scenario.uuid_of
                Scenario.no_toString Scenario.no_number
                [Scenario.bedroom] Scenario.ghost [Scenario.hallway]
                Scenario.session_credentials Scenario.empty_cache eq_refl)
    as H.
  cbn [app] in H. cbv zeta. rewrite H.
  - split; reflexivity.
  - discriminate.
  - now left.
Defined.

Lemma autoDiscover_needs_token_cookie_witness :
  autoDiscover Scenario.uuid_of Scenario.no_toString Scenario.no_number
    (snd (getCredentials "amos.cn.lbslm.com" "user@example.com" "secret"
            (Scenario.login_with ["uid=42; Path=/"])
            (Listing Scenario.device_listing)))
    Scenario.empty_cache
  = Scenario.empty_cache.
Proof.
  apply (autoDiscover_needs_token_cookie Scenario.uuid_of
           Scenario.no_toString Scenario.no_number "amos.cn.lbslm.com"
           "user@example.com" "secret" _ _ ["uid=42; Path=/"]
           Scenario.empty_cache (login_with_logged_in _)).
  repeat constructor.
Defined.

Lemma autoDiscover_hands_over_login_cookies_witness :
  let st := autoDiscover Scenario.uuid_of Scenario.no_toString
              Scenario.no_number
              (snd (getCredentials "amos.cn.lbslm.com" "user@example.com"
                      "secret" (Scenario.login_with Scenario.login_cookies)
                      (Listing Scenario.device_listing)))
              Scenario.empty_cache in
  map UUID (registered (calls st)) = ["uuid-12345"; "uuid-67890"] /\
  forall a c, In (a, c) (constructed (calls st)) ->
              token c = Str "tok123" /\ sessionId c = Str "sess9" /\
              uid c = Str "42".
Proof.
  assert (Hne : "42" <> EmptyString) by discriminate.
  destruct (autoDiscover_hands_over_login_cookies Scenario.uuid_of
              Scenario.no_toString Scenario.no_number "amos.cn.lbslm.com"
              "user@example.com" "secret"
              (Scenario.login_with Scenario.login_cookies)
              (Listing Scenario.device_listing) Scenario.login_cookies "42"
              Scenario.empty_cache (login_with_logged_in _) eq_refl Hne)
    as (new & Hcalls & Hnew).
  cbv zeta. split; [reflexivity|].
  intros a c Hin. rewrite Hcalls in Hin. cbn [calls Scenario.empty_cache app] in Hin.
  destruct (Hnew a c Hin) as (Ht & Hs & Hu & _).
  injection Ht as <-. injection Hs as <-. auto.
Defined.

End DiscoverySpec.
